(** * MercuryGestures: the single-hand position solver (Hand.cpp)

    A shallow embedding of [Hand.cpp].  Pixel coordinates are the C++ [int]s
    of [cv::Point], read as [Z] (the embedding assumes the arithmetic stays
    inside the [int] range, where C++ is defined).  Values of type [double]
    are read as exact rationals [Q]; a conversion [double -> int] is the
    truncation toward zero [truncQ].  Where the rounding of a double decides
    the stored pixel (the blends of [improveUsingHistory]) the binary64
    reading is given as well, with [round64].  Drawing calls (the [rgbSkinMask]
    overlay, the [DEBUG] blocks and the [colorBase] argument that only feeds
    them) have no effect on the tracked state and are left out. *)

From Stdlib Require Import Reals.
From Stdlib Require Import ZArith QArith Qround Qpower List Bool Lia Lqa.
From stdpp Require Import base gmap sets.
Import ListNotations.

Local Open Scope Z_scope.

(** ** Numbers *)

(** [double -> int]: the fractional part is dropped. *)
Definition truncQ (q : Q) : Z := Z.quot (Qnum q) (Zpos (Qden q)).

(** [a < b] and [a >= b] on doubles, as booleans. *)
Definition Qltb (a b : Q) : bool := negb (Qle_bool b a).
Definition Qgeb (a b : Q) : bool := Qle_bool b a.
Definition Qgtb (a b : Q) : bool := Qltb b a.

(** *** binary64 *)

(** The whole number nearest to [x], ties to the even one. *)
Definition roundHalfEven (x : Q) : Z :=
  let f := Qfloor x in
  match Qcompare (x - inject_Z f) (1 # 2) with
  | Lt => f
  | Gt => f + 1
  | Eq => if Z.even f then f else f + 1
  end.

(** For [q > 0], the exponent [l] with [2 ^ l <= q < 2 ^ (l + 1)]. *)
Definition Qlog2 (q : Q) : Z :=
  let l := Z.log2 (Qnum q) - Z.log2 (Zpos (Qden q)) in
  if Qle_bool (2 ^ l) q then l else l - 1.

(** The [double] nearest to [q]: a significand of 53 bits, round to nearest,
    ties to even.  The exponent range is not modelled; the values of the
    solver (pixels, fractions of them) are far from overflow and from the
    subnormal numbers. *)
Definition round64 (q : Q) : Q :=
  match Qcompare q 0 with
  | Eq => 0%Q
  | Gt => let s := 52 - Qlog2 q in
          Qred (inject_Z (roundHalfEven (q * 2 ^ s)) / 2 ^ s)
  | Lt => let s := 52 - Qlog2 (- q) in
          Qred (- (inject_Z (roundHalfEven (- q * 2 ^ s)) / 2 ^ s))
  end.

(** [a * b], [a + b] and [a / b] on doubles. *)
Definition fmul (a b : Q) : Q := round64 (a * b).
Definition fadd (a b : Q) : Q := round64 (a + b).
Definition fdiv (a b : Q) : Q := round64 (a / b).

(** Half the distance between 1 and the next double, 2^-53. *)
Definition unitRoundoff : Q := 1 # 9007199254740992.

(** [x'] is [x] up to [k] roundings. *)
Definition within (k : nat) (x' x : Q) : Prop :=
  (x * (1 - unitRoundoff) ^ Z.of_nat k <= x')%Q
  /\ (x' <= x * (1 + unitRoundoff) ^ Z.of_nat k)%Q.

(** ** cv::Point *)

Record Point : Type := mkPoint { px : Z; py : Z }.

(** The sentinel [cv::Point(0, 0)]. *)
Definition origin : Point := mkPoint 0 0.

(** ** cv::Mat, single channel

    [at_ m x y] is the pixel in column [x] of row [y]. *)

Record Mat : Type := mkMat { rows : Z; cols : Z; at_ : Z -> Z -> Z }.

(** [cv::Mat::zeros(rows, cols, type)]. *)
Definition zeros (r c : Z) : Mat := mkMat r c (fun _ _ => 0).

(** [cv::bitwise_and(a, b, result)]. *)
Definition bitwise_and (a b : Mat) : Mat :=
  mkMat (rows a) (cols a) (fun x y => Z.land (at_ a x y) (at_ b x y)).

(** Sum of [f 0 .. f (n-1)]. *)
Fixpoint sumTo (n : nat) (f : Z -> Z) : Z :=
  match n with
  | O => 0
  | S k => sumTo k f + f (Z.of_nat k)
  end.

(** [cv::sum(m)[0]]: every pixel of the buffer, row by row. *)
Definition cvSum (m : Mat) : Z :=
  sumTo (Z.to_nat (rows m)) (fun y => sumTo (Z.to_nat (cols m)) (fun x => at_ m x y)).

(** ** Enumerations of the headers *)

Inductive SearchMode : Type :=
  FREE_SEARCH | SEARCH_UP | SEARCH_DOWN | SEARCH_LEFT | SEARCH_RIGHT.

Inductive BlobType : Type := LOW | MEDIUM | HIGH.

(** Only [ONLY_HEAD] is named in Hand.cpp; the other tags of the enumeration
    are one constructor. *)
Inductive Condition : Type := ONLY_HEAD | CONDITION_OTHER.

Record BlobInformation : Type := mkBlob {
  left : Point; right : Point; top : Point; bottom : Point; type : BlobType }.

(** [SearchSpace]: a window [mat] of a mask and the frame coordinates
    [(sx, sy)] of its corner (the fields [space.x], [space.y], [space.mat]). *)
Record SearchSpace : Type := mkSpace { sx : Z; sy : Z; mat : Mat }.

(** Modelled from the spec: [toSearchSpace] and [fromSearchSpace] are declared
    in a header that is not part of the sources.  "Coordinates are translated
    into window-local space before searching and translated back"; the DEBUG
    block of [lookAround] draws a window point at [maxPos.x + space.x],
    [maxPos.y + space.y]. *)
Definition toSearchSpace (space : SearchSpace) (p : Point) : Point :=
  mkPoint (px p - sx space) (py p - sy space).

Definition fromSearchSpace (space : SearchSpace) (p : Point) : Point :=
  mkPoint (px p + sx space) (py p + sy space).

(** ** The hand *)

Record Hand : Type := mkHand {
  position : Point;
  positionHistory : list Point;
  positionIndex : Z;
  blobEstimate : Point;
  blobHistory : list BlobInformation;
  blobIndex : Z;
  estimateUpdated : bool;
  intersecting : bool;
  ignoreIntersect : bool;
  leftHand : bool;
  (* scale constants, declared in the header *)
  historySize : Z;
  cmInPixels : Q;
  maxVelocity : Q;
  fps : Q;
  faceCoverageThreshold : Q
}.

Definition set_position (h : Hand) (p : Point) : Hand :=
  mkHand p (positionHistory h) (positionIndex h) (blobEstimate h)
    (blobHistory h) (blobIndex h) (estimateUpdated h) (intersecting h)
    (ignoreIntersect h) (leftHand h) (historySize h) (cmInPixels h)
    (maxVelocity h) (fps h) (faceCoverageThreshold h).

Definition set_positionHistory (h : Hand) (l : list Point) : Hand :=
  mkHand (position h) l (positionIndex h) (blobEstimate h)
    (blobHistory h) (blobIndex h) (estimateUpdated h) (intersecting h)
    (ignoreIntersect h) (leftHand h) (historySize h) (cmInPixels h)
    (maxVelocity h) (fps h) (faceCoverageThreshold h).

Definition set_positionIndex (h : Hand) (i : Z) : Hand :=
  mkHand (position h) (positionHistory h) i (blobEstimate h)
    (blobHistory h) (blobIndex h) (estimateUpdated h) (intersecting h)
    (ignoreIntersect h) (leftHand h) (historySize h) (cmInPixels h)
    (maxVelocity h) (fps h) (faceCoverageThreshold h).

Definition set_blobEstimate (h : Hand) (p : Point) : Hand :=
  mkHand (position h) (positionHistory h) (positionIndex h) p
    (blobHistory h) (blobIndex h) (estimateUpdated h) (intersecting h)
    (ignoreIntersect h) (leftHand h) (historySize h) (cmInPixels h)
    (maxVelocity h) (fps h) (faceCoverageThreshold h).

Definition set_blobHistory (h : Hand) (l : list BlobInformation) : Hand :=
  mkHand (position h) (positionHistory h) (positionIndex h) (blobEstimate h)
    l (blobIndex h) (estimateUpdated h) (intersecting h)
    (ignoreIntersect h) (leftHand h) (historySize h) (cmInPixels h)
    (maxVelocity h) (fps h) (faceCoverageThreshold h).

Definition set_blobIndex (h : Hand) (i : Z) : Hand :=
  mkHand (position h) (positionHistory h) (positionIndex h) (blobEstimate h)
    (blobHistory h) i (estimateUpdated h) (intersecting h)
    (ignoreIntersect h) (leftHand h) (historySize h) (cmInPixels h)
    (maxVelocity h) (fps h) (faceCoverageThreshold h).

Definition set_estimateUpdated (h : Hand) (b : bool) : Hand :=
  mkHand (position h) (positionHistory h) (positionIndex h) (blobEstimate h)
    (blobHistory h) (blobIndex h) b (intersecting h)
    (ignoreIntersect h) (leftHand h) (historySize h) (cmInPixels h)
    (maxVelocity h) (fps h) (faceCoverageThreshold h).

Definition set_intersecting (h : Hand) (b : bool) : Hand :=
  mkHand (position h) (positionHistory h) (positionIndex h) (blobEstimate h)
    (blobHistory h) (blobIndex h) (estimateUpdated h) b
    (ignoreIntersect h) (leftHand h) (historySize h) (cmInPixels h)
    (maxVelocity h) (fps h) (faceCoverageThreshold h).

Definition set_ignoreIntersect (h : Hand) (b : bool) : Hand :=
  mkHand (position h) (positionHistory h) (positionIndex h) (blobEstimate h)
    (blobHistory h) (blobIndex h) (estimateUpdated h) (intersecting h)
    b (leftHand h) (historySize h) (cmInPixels h)
    (maxVelocity h) (fps h) (faceCoverageThreshold h).

(** [v[i]] on a [std::vector]; the indices of the solver stay inside the
    buffer, outside it the default is returned. *)
Definition vec_get {A : Type} (d : A) (v : list A) (i : Z) : A :=
  if i <? 0 then d else nth (Z.to_nat i) v d.

(** [v[i] = a]; nothing is written outside the buffer. *)
Definition vec_set {A : Type} (v : list A) (i : Z) (a : A) : list A :=
  if i <? 0 then v else <[Z.to_nat i := a]> v.

(** History is a deck. *)
Definition getNextIndex (h : Hand) (index : Z) : Z :=
  Z.rem (index + 1) (historySize h).

Definition getPreviousIndex (h : Hand) (index : Z) : Z :=
  if index - 1 <? 0 then index - 1 + historySize h else index - 1.

(** ** Instances used by the closed examples *)

(** A filled circle as the library call [cv::circle(.., CV_FILLED)] paints
    it: the centre and every pixel whose squared distance to it is at most
    [radius * radius].  At radius 1 these are the centre and its four
    neighbours, at radius 5 they are 81 pixels. *)
Definition discFilled (center : Point) (radius x y : Z) : bool :=
  (0 <=? radius)
  && ((x - px center) * (x - px center) + (y - py center) * (y - py center)
      <=? radius * radius).

(** Modelled from the spec: [getSearchSpace] is declared in a header that is
    not part of the sources.  "A rectangular sub-region of the full mask,
    offset from frame coordinates", taken "around the point": the window
    reaches [size] pixels to each side of [focus] and is cut at the border of
    the mask.  A call without a size takes [defaultWindow]. *)
Definition defaultWindow : Z := 100.

Definition cropWindow (m : Mat) (focus : Point) (size : option Z) : SearchSpace :=
  let reach := match size with Some s => s | None => defaultWindow end in
  let x0 := Z.max 0 (px focus - reach) in
  let y0 := Z.max 0 (py focus - reach) in
  let x1 := Z.min (cols m) (px focus + reach + 1) in
  let y1 := Z.min (rows m) (py focus + reach + 1) in
  mkSpace x0 y0 (mkMat (y1 - y0) (x1 - x0) (fun x y => at_ m (x + x0) (y + y0))).

(** Modelled from the spec: [getDistance] is declared in a header that is not
    part of the sources; the Euclidean pixel distance, here in whole pixels
    (the root rounded down). *)
Definition pixelDistance (a b : Point) : Q :=
  inject_Z (Z.sqrt ((px a - px b) * (px a - px b) + (py a - py b) * (py a - py b))).

(** A mask of the given size with every pixel at [v]. *)
Definition uniformMask (r c v : Z) : Mat := mkMat r c (fun _ _ => v).

(** A mask that is skin (255) in the columns up to [xmax], and off beyond. *)
Definition leftSkinMask (r c xmax : Z) : Mat :=
  mkMat r c (fun x _ => if x <=? xmax then 255 else 0).

(** A hand after construction: everything at the sentinel, a history of ten
    slots, one pixel per centimetre. *)
Definition freshHand : Hand :=
  mkHand origin (repeat origin 10) 0 origin
    (repeat (mkBlob origin origin origin origin LOW) 10) 0
    false false false true 10 1%Q 100%Q 25%Q 150%Q.

(** A hand at [p] whose whole history is [p]. *)
Definition restingHand (p : Point) (isLeft : bool) : Hand :=
  mkHand p (repeat p 10) 4 origin
    (repeat (mkBlob origin origin origin origin LOW) 10) 0
    false false false isLeft 10 1%Q 100%Q 25%Q 150%Q.

(** A hand that moved from (20,20) over (30,20) to (50,20) in its last three
    frames. *)
Definition acceleratingHand : Hand :=
  mkHand (mkPoint 50 20)
    ([mkPoint 20 20; mkPoint 30 20; mkPoint 50 20] ++ repeat origin 7) 2 origin
    (repeat (mkBlob origin origin origin origin LOW) 10) 0
    false false false true 10 1%Q 100%Q 25%Q 150%Q.

(** A fresh hand for which the estimate (0,50), on the left edge of the
    frame, was accepted this frame. *)
Definition edgeEstimateHand : Hand :=
  set_estimateUpdated (set_blobEstimate freshHand (mkPoint 0 50)) true.

(** A fresh hand for which the estimate (100,100) was accepted this
    frame. *)
Definition firstEstimateHand : Hand :=
  set_estimateUpdated (set_blobEstimate freshHand (mkPoint 100 100)) true.

(** A blob given by its bounding box [x0, x1] x [y0, y1]. *)
Definition boxBlob (x0 x1 y0 y1 : Z) (t : BlobType) : BlobInformation :=
  mkBlob (mkPoint x0 y0) (mkPoint x1 y0) (mkPoint x0 y0) (mkPoint x0 y1) t.

Section Engine.

(** ** What the sources rely on and do not contain *)

(** [cvCircleFilled center radius x y]: whether the library call
    [cv::circle(mask, center, radius, 255, CV_FILLED)] paints pixel [(x, y)]. *)
Variable cvCircleFilled : Point -> Z -> Z -> Z -> bool.

(** [getSearchSpace(space, mask, focus, size)] of the absent header: the
    window of [mask] around [focus]; [None] is the call without a size. *)
Variable getSearchSpace : Mat -> Point -> option Z -> SearchSpace.

(** [getDistance(a, b)] of the absent header. *)
Variable getDistance : Point -> Point -> Q.

(** [cv::circle(m, center, radius, color, CV_FILLED)]. *)
Definition circle (m : Mat) (center : Point) (radius color : Z) : Mat :=
  mkMat (rows m) (cols m)
    (fun x y => if cvCircleFilled center radius x y then color else at_ m x y).

(** ** Hand::getCoverage

    The quotient is read over the rationals, which is how the source behaves
    for [radius <> 0]; for [radius = 0] the source divides by zero. *)

Definition getCoverage (pos : Point) (blobMap : Mat) (radius : Z) : Q :=
  let mask := circle (zeros (rows blobMap) (cols blobMap)) pos radius 255 in
  let result := bitwise_and blobMap mask in
  (inject_Z (cvSum result) / (inject_Z (radius * radius) * (31415 # 10000) * 255))%Q.

(** ** Hand::shiftPosition

    Returns the coverage and the value written to [newPosition]. *)
Definition shiftPosition (skinMask : Mat) (basePosition : Point)
    (xOffset yOffset radius : Z) : Q * Point :=
  let newPos := mkPoint (px basePosition + xOffset) (py basePosition + yOffset) in
  (getCoverage newPos skinMask radius, newPos).

(** ** Hand::getPointQuality

    [point] is passed by reference: it is moved into the window and back.
    The result is the quality and the value [point] holds afterwards. *)
Definition getPointQuality (h : Hand) (point : Point) (qualityMask : Mat)
    (radius : Z) : Q * Point :=
  let radius := if radius =? 0 then truncQ (5 * cmInPixels h) else radius in
  let space := getSearchSpace qualityMask point (Some (2 * radius)) in
  let point := toSearchSpace space point in
  let quality := getCoverage point (mat space) radius in
  let point := fromSearchSpace space point in
  (quality, point).

(** ** Hand::lookAround *)

(** The [(xOffset, yOffset)] of [newValues[0]], [newValues[1]], ... *)
Definition searchOffsets (searchMode : SearchMode) (stepSize : Z) : list (Z * Z) :=
  match searchMode with
  | SEARCH_RIGHT =>
      [(0, stepSize); (0, - stepSize); (- stepSize, stepSize);
       (- stepSize, - stepSize); (- stepSize, 0)]
  | SEARCH_LEFT =>
      [(0, stepSize); (0, - stepSize); (stepSize, stepSize);
       (stepSize, - stepSize); (stepSize, 0)]
  | SEARCH_UP =>
      [(- stepSize, 0); (stepSize, 0); (stepSize, - stepSize);
       (- stepSize, - stepSize); (0, - stepSize)]
  | SEARCH_DOWN =>
      [(- stepSize, 0); (stepSize, 0); (stepSize, stepSize);
       (- stepSize, stepSize); (0, stepSize)]
  | FREE_SEARCH =>
      [(stepSize, stepSize); (stepSize, - stepSize); (stepSize, 0);
       (- stepSize, stepSize); (- stepSize, - stepSize); (- stepSize, 0);
       (0, stepSize); (0, - stepSize)]
  end.

(** [newValues] and [newPositions] after the [shiftPosition] calls of one
    iteration. *)
Definition candidates (m : Mat) (maxPos : Point) (stepSize radius : Z)
    (searchMode : SearchMode) : list (Q * Point) :=
  map (fun o => shiftPosition m maxPos (fst o) (snd o) radius)
      (searchOffsets searchMode stepSize).

(** The key under which a point enters the [std::set<int>]. *)
Definition key (p : Point) : Z := px p * 1000 + py p.

(** The [for j] loop from index [j] on: [newMax] and [maxIndex]. *)
Fixpoint selectBest (visited : gset Z) (cands : list (Q * Point)) (j : nat)
    (newMax : Q) (maxIndex : nat) : Q * nat :=
  match cands with
  | [] => (newMax, maxIndex)
  | (v, p) :: rest =>
      if Qltb newMax v && bool_decide (key p ∉ visited)
      then selectBest visited rest (S j) v j
      else selectBest visited rest (S j) newMax maxIndex
  end.

(** The variables the [for i] loop carries. *)
Record LookState : Type := mkLook {
  maxValue : Q; maxPos : Point; visitedKeys : gset Z }.

(** One iteration of the [for i] loop; [None] is the [break]. *)
Definition lookStep (m : Mat) (stepSize radius : Z) (searchMode : SearchMode)
    (st : LookState) : option LookState :=
  let cands := candidates m (maxPos st) stepSize radius searchMode in
  let '(newMax, maxIndex) := selectBest (visitedKeys st) cands 0 0%Q 0 in
  if Qgeb newMax (maxValue st) then
    let p := nth maxIndex (map snd cands) origin in
    Some (mkLook newMax p ({[ key p ]} ∪ visitedKeys st))
  else None.

(** The [for i] loop, [n] iterations left. *)
Fixpoint lookLoop (m : Mat) (stepSize radius : Z) (searchMode : SearchMode)
    (n : nat) (st : LookState) : LookState :=
  match n with
  | O => st
  | S k =>
      match lookStep m stepSize radius searchMode st with
      | Some st' => lookLoop m stepSize radius searchMode k st'
      | None => st
      end
  end.

(** The states after each accepted move of the loop, in order. *)
Fixpoint lookTrace (m : Mat) (stepSize radius : Z) (searchMode : SearchMode)
    (n : nat) (st : LookState) : list LookState :=
  match n with
  | O => []
  | S k =>
      match lookStep m stepSize radius searchMode st with
      | Some st' => st' :: lookTrace m stepSize radius searchMode k st'
      | None => []
      end
  end.

(** The state the loop of [lookAround] starts from. *)
Definition lookInit (start : Point) (skinMask : Mat) (radius : Z) : LookState :=
  let space := getSearchSpace skinMask start None in
  let maxPos := toSearchSpace space start in
  mkLook (getCoverage maxPos (mat space) radius) maxPos ∅.

Definition lookAround (start : Point) (skinMask : Mat)
    (maxIterations stepSize radius : Z) (searchMode : SearchMode) : Point :=
  let space := getSearchSpace skinMask start None in
  let st := lookLoop (mat space) stepSize radius searchMode
              (Z.to_nat maxIterations) (lookInit start skinMask radius) in
  fromSearchSpace space (maxPos st).

(** ** Hand::setEstimate *)

Definition setEstimate (h : Hand) (estimate : Point) (blob : BlobInformation)
    (ignoreIntersection : bool) (condition : Condition) : Hand :=
  let h :=
    if (match type blob with HIGH => true | _ => false end) || ignoreIntersection
    then set_ignoreIntersect h true else h in
  let accept (h : Hand) : Hand :=
    let h := set_blobEstimate h estimate in
    let h := set_blobIndex h (getNextIndex h (blobIndex h)) in
    let h := set_blobHistory h (vec_set (blobHistory h) (blobIndex h) blob) in
    set_estimateUpdated h true in
  match condition with
  | ONLY_HEAD =>
      if (py (position h) =? 0)
         || Qgtb (inject_Z (py (position h))) (faceCoverageThreshold h)
      then h
      else accept h
  | _ => accept h
  end.

(** ** Hand::improveByAreaSearch

    [position] is passed by reference and goes through [getPointQuality];
    the hand and the returned flag are the result. *)
Definition improveByAreaSearch (h : Hand) (skinMask : Mat) (position_ : Point)
    : Hand * bool :=
  let distance := getDistance position_ (position h) in
  let maxDistance := (2 * maxVelocity h * cmInPixels h / fps h)%Q in
  if Qgtb distance maxDistance || negb (estimateUpdated h) then
    let maxIterations := 10 in
    let stepSize := 4 in
    let radius := truncQ ((85 # 10) * cmInPixels h) in
    let '(pointQuality, position_) := getPointQuality h position_ skinMask 0 in
    if Qgtb pointQuality (2 # 10) then
      (set_position h
         (lookAround position_ skinMask maxIterations stepSize radius FREE_SEARCH),
       true)
    else (h, false)
  else (h, false).

(** ** Hand::getPredictedPosition *)

Definition getPredictedPosition (h : Hand) (skinMask : Mat) : Point :=
  let p1_index := positionIndex h in
  let p2_index := getPreviousIndex h p1_index in
  let p3_index := getPreviousIndex h p2_index in
  let position_n_1 := vec_get origin (positionHistory h) p1_index in
  let position_n_2 := vec_get origin (positionHistory h) p2_index in
  let position_n_3 := vec_get origin (positionHistory h) p3_index in
  let dx1 := px position_n_1 - px position_n_2 in
  let dy1 := py position_n_1 - py position_n_2 in
  let dx2 := px position_n_2 - px position_n_3 in
  let dy2 := py position_n_2 - py position_n_3 in
  let predictedPosition := mkPoint (px position_n_1 + dx1) (py position_n_1 + dy1) in
  let predictedPositionVelocity :=
    mkPoint (px position_n_1 + Z.quot (dx1 + dx2) 2)
            (py position_n_1 + Z.quot (dy1 + dy2) 2) in
  let '(pointQuality, predictedPosition) :=
    getPointQuality h predictedPosition skinMask 0 in
  let '(pointQualityVelocity, predictedPositionVelocity) :=
    getPointQuality h predictedPositionVelocity skinMask 0 in
  let predictedPosition :=
    if Qgtb pointQualityVelocity pointQuality
    then predictedPositionVelocity else predictedPosition in
  if Qgtb pointQuality (2 # 10) then predictedPosition else mkPoint 0 0.

(** ** Hand::getSearchModeFromBlobs *)

Fixpoint getSearchModeFromBlobs (h : Hand) (blobs : list BlobInformation)
    : SearchMode :=
  match blobs with
  | [] => FREE_SEARCH
  | b :: rest =>
      if (px (left b) <=? px (position h)) && (px (right b) >=? px (position h))
         && (py (top b) <=? py (position h)) && (py (bottom b) >=? py (position h))
      then
        let height := py (bottom b) - py (top b) in
        if Qltb (inject_Z height) (15 * cmInPixels h) then FREE_SEARCH
        else match type b with
             | LOW => SEARCH_DOWN
             | MEDIUM =>
                 if Qgtb (inject_Z height) (40 * cmInPixels h)
                 then SEARCH_DOWN else FREE_SEARCH
             | HIGH => SEARCH_UP
             end
      else getSearchModeFromBlobs h rest
  end.

(** ** Hand::improveByCoverage *)

Definition improveByCoverage (h : Hand) (skinMask : Mat) (searchMode : SearchMode)
    (maxIterations : Z) : Hand :=
  let stepSize := 3 in
  let radius := truncQ (5 * cmInPixels h) in
  let maxPos :=
    lookAround (position h) skinMask maxIterations stepSize radius searchMode in
  set_position h maxPos.

(** ** Hand::improveUsingHistory *)

(** The averaging loop with [n] rounds left: [None] is the early [return],
    otherwise the sums [avgX], [avgY]. *)
Fixpoint historySum (h : Hand) (n : nat) (index : Z) (avgX avgY : Q)
    : option (Q * Q) :=
  match n with
  | O => Some (avgX, avgY)
  | S k =>
      let p := vec_get origin (positionHistory h) index in
      if (px p =? 0) && (py p =? 0) then None
      else historySum h k (getPreviousIndex h index)
             (avgX + inject_Z (px p))%Q (avgY + inject_Z (py p))%Q
  end.

(** [a * avg + b * cur], stored into an [int] coordinate, with the products
    and the sum taken over the rationals (no rounding before the
    truncation); [blend64] below is the same expression on doubles. *)
Definition blend (a : Q) (avg : Q) (b : Q) (cur : Z) : Z :=
  truncQ (a * avg + b * inject_Z cur)%Q.

Definition improveUsingHistory (h : Hand) (skinMask movementMap : Mat) : Hand :=
  let historyAverage := 5%nat in
  match historySum h historyAverage (positionIndex h) 0%Q 0%Q with
  | None => h
  | Some (sumX, sumY) =>
      let avgX := (sumX / 5)%Q in
      let avgY := (sumY / 5)%Q in
      let '(movementCoverage, p) := getPointQuality h (position h) movementMap 30 in
      let h := set_position h p in
      if Qltb movementCoverage (1 # 1000) then
        set_position h (mkPoint (blend (95 # 100) avgX (5 # 100) (px (position h)))
                                (blend (95 # 100) avgY (5 # 100) (py (position h))))
      else if Qltb movementCoverage (5 # 100) then
        set_position h (mkPoint (blend (8 # 10) avgX (2 # 10) (px (position h)))
                                (blend (8 # 10) avgY (2 # 10) (py (position h))))
      else if Qltb movementCoverage (2 # 10) then
        set_position h (mkPoint (blend (5 # 10) avgX (5 # 10) (px (position h)))
                                (blend (5 # 10) avgY (5 # 10) (py (position h))))
      else h
  end.

(** [a * avg + b * cur] as the source evaluates it: the literals [a] and [b]
    are doubles, each product and the sum are rounded, and the result is
    stored into an [int] coordinate. *)
Definition blend64 (a : Q) (avg : Q) (b : Q) (cur : Z) : Z :=
  truncQ (fadd (fmul (round64 a) avg) (fmul (round64 b) (inject_Z cur))).

(** [improveUsingHistory] with lines 321-341 on doubles: the division of the
    sums by [historyAverage] and the three blends.  (The sums themselves are
    sums of five [int]s, which doubles hold exactly.  The motion coverage is
    compared as a rational: at radius 30 it is [k / (900 * 3.1415 * 255)]
    for a whole number [k], and the thresholds 0.001, 0.05 and 0.2 fall at
    [k] = 720.97, 36048.71 and 144194.85, far from every such value.) *)
Definition improveUsingHistory64 (h : Hand) (skinMask movementMap : Mat) : Hand :=
  let historyAverage := 5%nat in
  match historySum h historyAverage (positionIndex h) 0%Q 0%Q with
  | None => h
  | Some (sumX, sumY) =>
      let avgX := fdiv sumX 5 in
      let avgY := fdiv sumY 5 in
      let '(movementCoverage, p) := getPointQuality h (position h) movementMap 30 in
      let h := set_position h p in
      if Qltb movementCoverage (1 # 1000) then
        set_position h (mkPoint (blend64 (95 # 100) avgX (5 # 100) (px (position h)))
                                (blend64 (95 # 100) avgY (5 # 100) (py (position h))))
      else if Qltb movementCoverage (5 # 100) then
        set_position h (mkPoint (blend64 (8 # 10) avgX (2 # 10) (px (position h)))
                                (blend64 (8 # 10) avgY (2 # 10) (py (position h))))
      else if Qltb movementCoverage (2 # 10) then
        set_position h (mkPoint (blend64 (5 # 10) avgX (5 # 10) (px (position h)))
                                (blend64 (5 # 10) avgY (5 # 10) (py (position h))))
      else h
  end.

(** ** Hand::updateLastPoint *)

Definition updateLastPoint (h : Hand) : Hand :=
  let p0_index := positionIndex h in
  let p1_index := getPreviousIndex h p0_index in
  let p2_index := getPreviousIndex h p1_index in
  let p0 := vec_get origin (positionHistory h) p0_index in
  let p2 := vec_get origin (positionHistory h) p2_index in
  if (px p2 =? 0) && (py p2 =? 0) then h
  else
    set_positionHistory h
      (vec_set (positionHistory h) p1_index
         (mkPoint (truncQ ((5 # 10) * inject_Z (px p0 + px p2)))
                  (truncQ ((5 # 10) * inject_Z (py p0 + py p2))))).

(** ** Hand::solve *)

(** The estimate, when one was accepted this frame, becomes the position. *)
Definition solveEstimate (h : Hand) : Hand :=
  if estimateUpdated h then set_position h (blobEstimate h) else h.

(** The search around the last known position, then around the predicted
    one. *)
Definition solveRecover (h : Hand) (skinMask : Mat) : Hand :=
  let lastPosition := vec_get origin (positionHistory h) (positionIndex h) in
  if negb (px lastPosition =? 0) && negb (py lastPosition =? 0)
     && negb (intersecting h)
  then
    let '(h, areaSearched) := improveByAreaSearch h skinMask lastPosition in
    if negb areaSearched then
      let predictedPoint := getPredictedPosition h skinMask in
      if negb (px predictedPoint =? 0) && negb (py predictedPoint =? 0)
      then fst (improveByAreaSearch h skinMask predictedPoint)
      else h
    else h
  else h.

(** The improvement of an initialized position and its entry in the
    history. *)
Definition solveRefine (h : Hand) (skinMask : Mat)
    (blobs : list BlobInformation) (movementMap : Mat) : Hand :=
  if negb (px (position h) =? 0) && negb (py (position h) =? 0) then
    let searchMode := getSearchModeFromBlobs h blobs in
    let h := improveByCoverage h skinMask searchMode 5 in
    let h := improveUsingHistory h skinMask movementMap in
    let h := set_positionIndex h (getNextIndex h (positionIndex h)) in
    let h := set_positionHistory h
               (vec_set (positionHistory h) (positionIndex h) (position h)) in
    updateLastPoint h
  else h.

Definition solve (h : Hand) (skinMask : Mat) (blobs : list BlobInformation)
    (movementMap : Mat) : Hand :=
  let h := solveEstimate h in
  let h := solveRecover h skinMask in
  let h := solveRefine h skinMask blobs movementMap in
  set_estimateUpdated h false.

(** ** Hand::handleIntersection *)

(** [std::max(1.0, std::sqrt(n)) < m] for integers [n >= 0] and [m]: the
    clamp makes it false unless [1 < m], and then the root is below [m]
    exactly when [n < m * m]. *)
Definition clampedRootLt (n m : Z) : bool := (1 <? m) && (n <? m * m).

Definition handleIntersection (h : Hand) (otherHandPosition : Point)
    (skinMask : Mat) : Hand :=
  if negb (px (position h) =? 0) && negb (py (position h) =? 0)
     && negb (px otherHandPosition =? 0) && negb (py otherHandPosition =? 0)
  then
    let h := set_intersecting h false in
    let minimalDistance := truncQ (8 * cmInPixels h) in
    let dx := Z.abs (px (position h) - px otherHandPosition) in
    let dy := Z.abs (py (position h) - py otherHandPosition) in
    let distance2 := dx * dx + dy * dy in
    let side := if leftHand h then SEARCH_LEFT else SEARCH_RIGHT in
    let h :=
      if clampedRootLt distance2 minimalDistance then
        let h := set_intersecting h true in
        improveByCoverage h skinMask side 20
      else if clampedRootLt distance2 (2 * minimalDistance) then
        improveByCoverage h skinMask side 5
      else h in
    let h := if ignoreIntersect h then set_intersecting h false else h in
    set_ignoreIntersect h false
  else h.

(** ** Runs of the [lookAround] loop *)

(** The number of times the body of the [for i] loop is entered, the
    iteration that ends in [break] included. *)
Fixpoint lookIterations (m : Mat) (stepSize radius : Z) (searchMode : SearchMode)
    (n : nat) (st : LookState) : nat :=
  match n with
  | O => O
  | S k =>
      match lookStep m stepSize radius searchMode st with
      | Some st' => S (lookIterations m stepSize radius searchMode k st')
      | None => 1%nat
      end
  end.

(** [Chain R st l]: from [st] on, each state of [l] is [R]-related to the one
    before it. *)
Inductive Chain (R : LookState -> LookState -> Prop)
    : LookState -> list LookState -> Prop :=
| Chain_nil : forall st, Chain R st []
| Chain_cons : forall st st' l, R st st' -> Chain R st' l -> Chain R st (st' :: l).

(** The offset of candidate 0, and the point [n] such offsets away. *)
Definition firstOffset (searchMode : SearchMode) (stepSize : Z) : Z * Z :=
  nth 0 (searchOffsets searchMode stepSize) (0, 0).

Definition shiftBy (p : Point) (o : Z * Z) (n : Z) : Point :=
  mkPoint (px p + n * fst o) (py p + n * snd o).

(** What holds of the loop variables after [n] accepted moves from the point
    [p0] of coverage [c0]: the recorded value is the coverage of the current
    point and is not below [c0]; and as long as it is not positive, every move
    so far went to candidate 0. *)
Definition lookInv (m : Mat) (stepSize radius : Z) (searchMode : SearchMode)
    (p0 : Point) (c0 : Q) (n : Z) (st : LookState) : Prop :=
  (c0 <= maxValue st)%Q
  /\ (maxValue st == getCoverage (maxPos st) m radius)%Q
  /\ ((0 < maxValue st)%Q
      \/ (0 <= n
          /\ maxPos st = shiftBy p0 (firstOffset searchMode stepSize) n
          /\ forall k, k ∈ visitedKeys st ->
               exists j, 1 <= j <= n
                 /\ k = key (shiftBy p0 (firstOffset searchMode stepSize) j))).

(** The relation between two consecutive states that the loop maintains. *)
Definition goodMove (m : Mat) (stepSize radius : Z) (searchMode : SearchMode)
    (st st' : LookState) : Prop :=
  lookStep m stepSize radius searchMode st = Some st'
  /\ (getCoverage (maxPos st) m radius <= getCoverage (maxPos st') m radius)%Q
  /\ (stepSize <> 0 -> key (maxPos st') ∉ visitedKeys st).

(** ** The last history slots *)

(** The slot [k] steps before the most recent one. *)
Definition historySlot (h : Hand) (k : nat) : Point :=
  vec_get origin (positionHistory h)
    (Nat.iter k (getPreviousIndex h) (positionIndex h)).

(** The pixels of a [rows] x [cols] buffer that the filled circle paints. *)
Definition paintedPixels (pos : Point) (radius r c : Z) : Z :=
  cvSum (circle (zeros r c) pos radius 1).

(** ** Blobs and frames *)

(** The bounding-box test of [getSearchModeFromBlobs]. *)
Definition blobContains (h : Hand) (b : BlobInformation) : bool :=
  (px (left b) <=? px (position h)) && (px (right b) >=? px (position h))
  && (py (top b) <=? py (position h)) && (py (bottom b) >=? py (position h)).

(** The fields of the hand that are not the tracked position, its history
    and the per-frame [estimateUpdated] agree. *)
Definition sameSetup (h h' : Hand) : Prop :=
  blobEstimate h' = blobEstimate h
  /\ blobHistory h' = blobHistory h
  /\ blobIndex h' = blobIndex h
  /\ intersecting h' = intersecting h
  /\ ignoreIntersect h' = ignoreIntersect h
  /\ leftHand h' = leftHand h
  /\ historySize h' = historySize h
  /\ cmInPixels h' = cmInPixels h
  /\ maxVelocity h' = maxVelocity h
  /\ fps h' = fps h
  /\ faceCoverageThreshold h' = faceCoverageThreshold h.

(** [kx] steps in x and [ky] steps in y go with the search mode: a biased
    search takes no step against its direction. *)
Definition withBias (searchMode : SearchMode) (kx ky : Z) : Prop :=
  match searchMode with
  | SEARCH_RIGHT => kx <= 0
  | SEARCH_LEFT => 0 <= kx
  | SEARCH_UP => ky <= 0
  | SEARCH_DOWN => 0 <= ky
  | FREE_SEARCH => True
  end.

(** ** Basic facts *)

Lemma Qltb_lt (a b : Q) : Qltb a b = true <-> (a < b)%Q.
Proof.
  unfold Qltb. rewrite negb_true_iff.
  split; intros H.
  - apply Qnot_le_lt. intros Hle. apply Qle_bool_iff in Hle. congruence.
  - destruct (Qle_bool b a) eqn:E; [|reflexivity].
    apply Qle_bool_iff in E. exfalso. exact (Qlt_not_le _ _ H E).
Qed.

Lemma Qltb_ge (a b : Q) : Qltb a b = false <-> (b <= a)%Q.
Proof.
  unfold Qltb. rewrite negb_false_iff. apply Qle_bool_iff.
Qed.

Lemma Qgeb_ge (a b : Q) : Qgeb a b = true <-> (b <= a)%Q.
Proof. unfold Qgeb. apply Qle_bool_iff. Qed.

Lemma Qgtb_gt (a b : Q) : Qgtb a b = true <-> (b < a)%Q.
Proof. unfold Qgtb. apply Qltb_lt. Qed.

Lemma Qgtb_le (a b : Q) : Qgtb a b = false <-> (a <= b)%Q.
Proof. unfold Qgtb. apply Qltb_ge. Qed.

Lemma from_to_SearchSpace (space : SearchSpace) (p : Point) :
  fromSearchSpace space (toSearchSpace space p) = p.
Proof.
  destruct p as [x y]. unfold fromSearchSpace, toSearchSpace. simpl.
  f_equal; lia.
Qed.

Lemma to_from_SearchSpace (space : SearchSpace) (p : Point) :
  toSearchSpace space (fromSearchSpace space p) = p.
Proof.
  destruct p as [x y]. unfold fromSearchSpace, toSearchSpace. simpl.
  f_equal; lia.
Qed.

Lemma sumTo_nonneg (n : nat) (f : Z -> Z) :
  (forall i, 0 <= f i) -> 0 <= sumTo n f.
Proof.
  intros Hf. induction n as [|k IH]; simpl.
  - lia.
  - specialize (Hf (Z.of_nat k)). lia.
Qed.

Lemma sumTo_ext (n : nat) (f g : Z -> Z) :
  (forall i, 0 <= i < Z.of_nat n -> f i = g i) -> sumTo n f = sumTo n g.
Proof.
  induction n as [|k IH]; intros Hfg; simpl.
  - reflexivity.
  - rewrite IH, (Hfg (Z.of_nat k)) by (try intros; try apply Hfg; lia).
    reflexivity.
Qed.

Lemma sumTo_zero (n : nat) : sumTo n (fun _ => 0) = 0.
Proof. induction n as [|k IH]; simpl; lia. Qed.

(** [getPointQuality] hands the point back as it received it. *)
Lemma getPointQuality_point (h : Hand) (p : Point) (m : Mat) (radius : Z) :
  snd (getPointQuality h p m radius) = p.
Proof. unfold getPointQuality. simpl. apply from_to_SearchSpace. Qed.

(** ** The coverage is never negative *)

Lemma getCoverage_nonneg (pos : Point) (blobMap : Mat) (radius : Z) :
  (0 <= getCoverage pos blobMap radius)%Q.
Proof.
  unfold getCoverage. unfold Qdiv.
  apply Qmult_le_0_compat.
  - change 0%Q with (inject_Z 0). rewrite <- Zle_Qle.
    unfold cvSum. apply sumTo_nonneg. intros y. apply sumTo_nonneg. intros x.
    simpl. apply Z.land_nonneg. right.
    destruct (cvCircleFilled pos radius x y); lia.
  - apply Qinv_le_0_compat.
    apply Qmult_le_0_compat; [apply Qmult_le_0_compat|]; try discriminate.
    change 0%Q with (inject_Z 0). rewrite <- Zle_Qle. nia.
Qed.

(** ** The selection loop of [lookAround] *)

(** Either no candidate was taken, or the one at [maxIndex] was: it carries
    the value [newMax], its key is not in the set, and it beats the value
    the loop started from. *)
Lemma selectBest_spec (visited : gset Z) (cands : list (Q * Point)) :
  forall (j : nat) (a : Q) (i : nat) (nm : Q) (mi : nat),
    selectBest visited cands j a i = (nm, mi) ->
    (nm = a /\ mi = i)
    \/ (exists p, nth_error cands (mi - j) = Some (nm, p)
                  /\ (j <= mi)%nat /\ (key p ∉ visited) /\ (a < nm)%Q).
Proof.
  induction cands as [|[v p] rest IH]; intros j a i nm mi H; simpl in H.
  - left. inversion H. auto.
  - destruct (Qltb a v && bool_decide (key p ∉ visited)) eqn:E.
    + apply andb_true_iff in E as [Hlt Hfresh].
      apply Qltb_lt in Hlt. apply bool_decide_eq_true in Hfresh.
      apply IH in H as [[-> ->]|(q & Hq & Hj & Hq' & Hlt')].
      * right. exists p. replace (j - j)%nat with 0%nat by lia.
        simpl. repeat split; auto.
      * right. exists q.
        replace (mi - j)%nat with (S (mi - S j)) by lia. simpl.
        repeat split; auto; [lia|]. eapply Qlt_trans; eauto.
    + apply IH in H as [[-> ->]|(q & Hq & Hj & Hq' & Hlt')].
      * left. auto.
      * right. exists q.
        replace (mi - j)%nat with (S (mi - S j)) by lia. simpl.
        repeat split; auto. lia.
Qed.

(** Every candidate carries the coverage of its own position. *)
Lemma candidates_value (m : Mat) (p0 : Point) (stepSize radius : Z)
    (searchMode : SearchMode) (k : nat) (v : Q) (p : Point) :
  nth_error (candidates m p0 stepSize radius searchMode) k = Some (v, p) ->
  v = getCoverage p m radius.
Proof.
  unfold candidates. intros H.
  apply nth_error_In in H. apply in_map_iff in H as (o & Ho & _).
  unfold shiftPosition in Ho. inversion Ho. reflexivity.
Qed.

Lemma nth_map_snd (cands : list (Q * Point)) (k : nat) (v : Q) (p : Point) :
  nth_error cands k = Some (v, p) -> nth k (map snd cands) origin = p.
Proof.
  revert k. induction cands as [|c rest IH]; intros [|k] H; simpl in *;
    try discriminate.
  - inversion H. reflexivity.
  - apply IH. exact H.
Qed.

(** When the loop leaves [newMax] where it started, no candidate had both a
    greater value and a key outside the set. *)
Lemma selectBest_none (visited : gset Z) (cands : list (Q * Point)) :
  forall (j : nat) (a : Q) (i : nat) (nm : Q) (mi : nat),
    selectBest visited cands j a i = (nm, mi) ->
    ~ (a < nm)%Q ->
    forall v p, In (v, p) cands -> (v <= a)%Q \/ (key p ∈ visited).
Proof.
  induction cands as [|[v p] rest IH]; intros j a i nm mi H Hno w q Hin;
    simpl in H; [destruct Hin|].
  destruct (Qltb a v && bool_decide (key p ∉ visited)) eqn:E.
  - exfalso. apply andb_true_iff in E as [Hlt _]. apply Qltb_lt in Hlt.
    apply selectBest_spec in H as [[-> _]|(_ & _ & _ & _ & Hlt')].
    + exact (Hno Hlt).
    + apply Hno. eapply Qlt_trans; eauto.
  - destruct Hin as [Heq|Hin].
    + inversion Heq; subst w q. apply andb_false_iff in E as [E|E].
      * left. apply Qltb_ge. exact E.
      * right. apply bool_decide_eq_false in E.
        destruct (decide (key p ∈ visited)); [assumption|contradiction].
    + eapply IH; eauto.
Qed.

(** What an accepted iteration does: either the plain case, the best
    unvisited candidate, of positive coverage; or no candidate was taken, the
    best value so far is not positive, and the move goes to candidate 0. *)
Lemma lookStep_cases (m : Mat) (stepSize radius : Z) (searchMode : SearchMode)
    (st st' : LookState) :
  lookStep m stepSize radius searchMode st = Some st' ->
  visitedKeys st' = {[ key (maxPos st') ]} ∪ visitedKeys st
  /\ (maxValue st <= maxValue st')%Q
  /\ ((maxValue st' = getCoverage (maxPos st') m radius
       /\ (0 < maxValue st')%Q
       /\ (key (maxPos st') ∉ visitedKeys st))
      \/ (maxValue st' = 0%Q
          /\ maxPos st' =
             nth 0 (map snd (candidates m (maxPos st) stepSize radius searchMode))
                 origin
          /\ forall v p,
               In (v, p) (candidates m (maxPos st) stepSize radius searchMode) ->
               (v <= 0)%Q \/ (key p ∈ visitedKeys st))).
Proof.
  unfold lookStep.
  destruct (selectBest _ _ _ _ _) as [nm mi] eqn:Hsel.
  destruct (Qgeb nm (maxValue st)) eqn:Hge; [|discriminate].
  intros H. inversion H; subst st'; clear H. simpl.
  apply Qgeb_ge in Hge.
  split; [reflexivity|]. split; [exact Hge|].
  pose proof Hsel as Hnone.
  apply selectBest_spec in Hsel as [[-> ->]|(p & Hp & _ & Hfresh & Hpos)].
  - right. split; [reflexivity|]. split; [reflexivity|].
    eapply selectBest_none; eauto. apply Qlt_irrefl.
  - left. replace (mi - 0)%nat with mi in Hp by lia.
    rewrite (nth_map_snd _ _ _ _ Hp).
    split; [eapply candidates_value; eauto|]. split; assumption.
Qed.

(** ** The loop invariant of [lookAround] *)

Lemma key_shiftBy (p : Point) (o : Z * Z) (n : Z) :
  key (shiftBy p o n) = key p + n * (1000 * fst o + snd o).
Proof. unfold key, shiftBy. simpl. lia. Qed.

Lemma firstOffset_key (searchMode : SearchMode) (stepSize : Z) :
  1000 * fst (firstOffset searchMode stepSize)
  + snd (firstOffset searchMode stepSize) = 0 ->
  stepSize = 0.
Proof. destruct searchMode; unfold firstOffset; simpl; lia. Qed.

Lemma firstOffset_zero (searchMode : SearchMode) :
  firstOffset searchMode 0 = (0, 0).
Proof. destruct searchMode; reflexivity. Qed.

Lemma candidate0 (m : Mat) (p : Point) (stepSize radius : Z)
    (searchMode : SearchMode) :
  let c := shiftBy p (firstOffset searchMode stepSize) 1 in
  nth 0 (map snd (candidates m p stepSize radius searchMode)) origin = c
  /\ In (getCoverage c m radius, c) (candidates m p stepSize radius searchMode).
Proof.
  unfold candidates, shiftPosition, shiftBy, firstOffset.
  destruct searchMode; simpl;
    rewrite ?Z.mul_1_l, ?Z.add_0_r; (split; [reflexivity | left; reflexivity]).
Qed.

Lemma shiftBy_shiftBy (p : Point) (o : Z * Z) (n : Z) :
  shiftBy (shiftBy p o n) o 1 = shiftBy p o (n + 1).
Proof. unfold shiftBy. simpl. f_equal; lia. Qed.

Lemma lookInv_init (m : Mat) (stepSize radius : Z) (searchMode : SearchMode)
    (p0 : Point) :
  lookInv m stepSize radius searchMode p0 (getCoverage p0 m radius) 0
    (mkLook (getCoverage p0 m radius) p0 ∅).
Proof.
  unfold lookInv. simpl. split; [apply Qle_refl|]. split; [reflexivity|].
  right. split; [lia|]. split.
  - unfold shiftBy. destruct p0. simpl. f_equal; lia.
  - intros k Hk. set_solver.
Qed.

Lemma lookStep_inv (m : Mat) (stepSize radius : Z) (searchMode : SearchMode)
    (p0 : Point) (c0 : Q) (n : Z) (st st' : LookState) :
  lookInv m stepSize radius searchMode p0 c0 n st ->
  lookStep m stepSize radius searchMode st = Some st' ->
  lookInv m stepSize radius searchMode p0 c0 (n + 1) st'
  /\ goodMove m stepSize radius searchMode st st'.
Proof.
  intros (Hc0 & Heq & Hpath) Hstep. unfold goodMove.
  pose proof (lookStep_cases _ _ _ _ _ _ Hstep)
    as (Hvis & Hmono & [(Hval & Hpos & Hfresh)|(Hval & Hmove & Hnone)]).
  - (* the best unvisited candidate *)
    split; [|split; [exact Hstep|split]].
    + split; [eapply Qle_trans; eauto|]. split; [rewrite Hval; reflexivity|].
      left. exact Hpos.
    + rewrite <- Hval, <- Heq. exact Hmono.
    + intros _. exact Hfresh.
  - (* no candidate taken: the move goes to candidate 0 *)
    rewrite Hval in Hmono.
    destruct Hpath as [Hpos|(Hn & Hat & Hkeys)]; [lra|].
    set (o := firstOffset searchMode stepSize) in *.
    destruct (candidate0 m (maxPos st) stepSize radius searchMode) as [Hc Hin].
    fold o in Hc, Hin. rewrite Hc in Hmove.
    assert (Hsh : shiftBy (maxPos st) o 1 = shiftBy p0 o (n + 1))
      by (rewrite Hat; apply shiftBy_shiftBy).
    rewrite Hsh in Hmove, Hin.
    pose proof (getCoverage_nonneg (maxPos st) m radius) as Hnn.
    pose proof (getCoverage_nonneg (maxPos st') m radius) as Hnn'.
    assert (Hold : key (maxPos st') ∈ visitedKeys st -> stepSize = 0).
    { intros Hk. apply Hkeys in Hk as (j & Hj & Hk).
      rewrite Hmove, !key_shiftBy in Hk.
      apply (firstOffset_key searchMode). fold o. nia. }
    assert (Hcov : (getCoverage (maxPos st') m radius <= 0)%Q).
    { destruct (Hnone _ _ Hin) as [Hle|Hk].
      - rewrite Hmove. exact Hle.
      - rewrite <- Hmove in Hk. apply Hold in Hk.
        assert (Hsame : maxPos st' = maxPos st).
        { rewrite Hmove, Hat. unfold o. rewrite Hk, firstOffset_zero.
          unfold shiftBy. simpl. f_equal; lia. }
        rewrite Hsame, <- Heq. exact Hmono. }
    split; [|split; [exact Hstep|split]].
    + split; [rewrite Hval; eapply Qle_trans; eauto|].
      split; [rewrite Hval; lra|].
      right. split; [lia|]. split; [exact Hmove|].
      intros k Hk. rewrite Hvis in Hk.
      apply elem_of_union in Hk as [Hk|Hk].
      * apply elem_of_singleton in Hk. exists (n + 1). split; [lia|].
        rewrite Hk, Hmove. reflexivity.
      * apply Hkeys in Hk as (j & Hj & Hk). exists j. split; [lia|exact Hk].
    + lra.
    + intros Hs Hk. apply Hs. apply Hold. exact Hk.
Qed.

Lemma lookTrace_chain (m : Mat) (stepSize radius : Z) (searchMode : SearchMode)
    (p0 : Point) (c0 : Q) :
  forall (fuel : nat) (n : Z) (st : LookState),
    lookInv m stepSize radius searchMode p0 c0 n st ->
    Chain (goodMove m stepSize radius searchMode) st
      (lookTrace m stepSize radius searchMode fuel st).
Proof.
  induction fuel as [|fuel IH]; intros n st Hinv; simpl.
  - constructor.
  - destruct (lookStep m stepSize radius searchMode st) as [st'|] eqn:Hstep.
    + destruct (lookStep_inv _ _ _ _ _ _ _ _ _ Hinv Hstep) as [Hinv' Hgood].
      constructor; [exact Hgood|]. eapply IH; eauto.
    + constructor.
Qed.

Lemma lookLoop_inv (m : Mat) (stepSize radius : Z) (searchMode : SearchMode)
    (p0 : Point) (c0 : Q) :
  forall (fuel : nat) (n : Z) (st : LookState),
    lookInv m stepSize radius searchMode p0 c0 n st ->
    exists n', lookInv m stepSize radius searchMode p0 c0 n'
                 (lookLoop m stepSize radius searchMode fuel st).
Proof.
  induction fuel as [|fuel IH]; intros n st Hinv; simpl.
  - exists n. exact Hinv.
  - destruct (lookStep m stepSize radius searchMode st) as [st'|] eqn:Hstep.
    + destruct (lookStep_inv _ _ _ _ _ _ _ _ _ Hinv Hstep) as [Hinv' _].
      eapply IH; eauto.
    + exists n. exact Hinv.
Qed.

Lemma last_cons_default {A : Type} (l : list A) :
  forall x d : A, List.last (x :: l) d = List.last l x.
Proof.
  induction l as [|y l IH]; intros x d; [reflexivity|].
  change (List.last (x :: y :: l) d) with (List.last (y :: l) d).
  rewrite !IH. reflexivity.
Qed.

Lemma lookLoop_last (m : Mat) (stepSize radius : Z) (searchMode : SearchMode) :
  forall (fuel : nat) (st : LookState),
    lookLoop m stepSize radius searchMode fuel st
    = List.last (lookTrace m stepSize radius searchMode fuel st) st.
Proof.
  induction fuel as [|fuel IH]; intros st; simpl; [reflexivity|].
  destruct (lookStep m stepSize radius searchMode st) as [st'|]; [|reflexivity].
  rewrite IH. symmetry. apply last_cons_default.
Qed.

Lemma lookIterations_bound (m : Mat) (stepSize radius : Z)
    (searchMode : SearchMode) :
  forall (fuel : nat) (st : LookState),
    (length (lookTrace m stepSize radius searchMode fuel st)
     <= lookIterations m stepSize radius searchMode fuel st <= fuel)%nat.
Proof.
  induction fuel as [|fuel IH]; intros st; simpl; [lia|].
  destruct (lookStep m stepSize radius searchMode st) as [st'|]; simpl.
  - specialize (IH st'). lia.
  - lia.
Qed.

Lemma Chain_impl (R R' : LookState -> LookState -> Prop) :
  (forall a b, R a b -> R' a b) ->
  forall l st, Chain R st l -> Chain R' st l.
Proof.
  intros HR l. induction l as [|x l IH]; intros st H; inversion H; subst.
  - constructor.
  - constructor; auto.
Qed.

(** ** Hand::lookAround: the search never loses coverage *)

(** C2.  For every starting point, mask, iteration bound, step size, radius
    and search mode, the point [lookAround] returns has at least the coverage
    of the starting point, both measured as the search measures them (in its
    window, at the given radius); and along the accepted moves of the call
    the coverage of the current point never decreases. *)
Theorem lookAround_coverage_monotone (start : Point) (skinMask : Mat)
    (maxIterations stepSize radius : Z) (searchMode : SearchMode) :
  let space := getSearchSpace skinMask start None in
  let coverage p := getCoverage (toSearchSpace space p) (mat space) radius in
  let st0 := lookInit start skinMask radius in
  (coverage start
   <= coverage (lookAround start skinMask maxIterations stepSize radius searchMode))%Q
  /\ Chain (fun st st' =>
              (getCoverage (maxPos st) (mat space) radius
               <= getCoverage (maxPos st') (mat space) radius)%Q)
       st0
       (lookTrace (mat space) stepSize radius searchMode
          (Z.to_nat maxIterations) st0).
Proof.
  intros space coverage st0. subst coverage. unfold lookAround. fold space.
  rewrite to_from_SearchSpace.
  pose proof (lookInv_init (mat space) stepSize radius searchMode
                (toSearchSpace space start)) as Hinit.
  change (mkLook _ _ _) with st0 in Hinit.
  split.
  - destruct (lookLoop_inv _ _ _ searchMode _ _ (Z.to_nat maxIterations) _ _ Hinit)
      as (n' & Hc0 & Heq & _).
    fold st0. rewrite <- Heq. exact Hc0.
  - eapply Chain_impl; [|eapply lookTrace_chain; exact Hinit].
    intros a b (_ & H & _). exact H.
Qed.

(** ** Hand::lookAround: bounded, and no move onto a visited key *)

(** C3, amended.  With a step size other than 0 (the callers pass 3 and 4),
    one [lookAround] call enters the loop body at most [maxIterations] times,
    returns the point of the last accepted move, and every accepted move goes
    to a position whose key is not in the visited set at that moment. *)
Theorem lookAround_bounded_fresh_moves (start : Point) (skinMask : Mat)
    (maxIterations stepSize radius : Z) (searchMode : SearchMode) :
  stepSize <> 0 ->
  let space := getSearchSpace skinMask start None in
  let st0 := lookInit start skinMask radius in
  let trace :=
    lookTrace (mat space) stepSize radius searchMode (Z.to_nat maxIterations) st0 in
  (lookIterations (mat space) stepSize radius searchMode (Z.to_nat maxIterations) st0
   <= Z.to_nat maxIterations)%nat
  /\ lookAround start skinMask maxIterations stepSize radius searchMode
     = fromSearchSpace space (maxPos (List.last trace st0))
  /\ Chain (fun st st' =>
              lookStep (mat space) stepSize radius searchMode st = Some st'
              /\ (key (maxPos st') ∉ visitedKeys st))
       st0 trace.
Proof.
  intros Hstep space st0 trace.
  split; [apply lookIterations_bound|]. split.
  - unfold lookAround. fold space st0. rewrite lookLoop_last. reflexivity.
  - pose proof (lookInv_init (mat space) stepSize radius searchMode
                  (toSearchSpace space start)) as Hinit.
    change (mkLook _ _ _) with st0 in Hinit.
    eapply Chain_impl; [|eapply lookTrace_chain; exact Hinit].
    intros a b (H1 & _ & H2). split; [exact H1|]. apply H2. exact Hstep.
Qed.

(** ** Records and setters *)

Lemma set_position_same (h : Hand) : set_position h (position h) = h.
Proof. destruct h. reflexivity. Qed.

Lemma is_origin_iff (p : Point) :
  (px p =? 0) && (py p =? 0) = true <-> p = origin.
Proof.
  destruct p as [x y]. unfold origin. simpl.
  rewrite andb_true_iff, !Z.eqb_eq. split.
  - intros [-> ->]. reflexivity.
  - intros H. inversion H. auto.
Qed.

(** [truncQ] depends on the value of the rational only. *)
Lemma truncQ_comp (q q' : Q) : (q == q')%Q -> truncQ q = truncQ q'.
Proof.
  destruct q as [a b], q' as [c d]. unfold Qeq, truncQ. simpl. intros H.
  rewrite <- (Z.quot_mul_cancel_r a (Zpos b) (Zpos d)) by lia.
  rewrite <- (Z.quot_mul_cancel_r c (Zpos d) (Zpos b)) by lia.
  rewrite H. f_equal. lia.
Qed.

Lemma blend_comp (a avg avg' b : Q) (cur : Z) :
  (avg == avg')%Q -> blend a avg b cur = blend a avg' b cur.
Proof. intros H. unfold blend. apply truncQ_comp. rewrite H. reflexivity. Qed.

(** ** Hand::improveByAreaSearch *)

(** C4.  [improveByAreaSearch] returns true, with the result of the local
    search (FREE_SEARCH, radius 8.5 cm in pixels, at most 10 iterations, step
    4) from the reference point as the new position, exactly when (the
    distance between the reference point and the position exceeds
    [2 * maxVelocity * cmInPixels / fps], or no estimate was accepted this
    frame) and the quality of the reference point exceeds 0.2; in every other
    case it returns false and the hand is as it was. *)
Theorem improveByAreaSearch_spec (h : Hand) (skinMask : Mat) (reference : Point) :
  let maxDistance := (2 * maxVelocity h * cmInPixels h / fps h)%Q in
  let searched :=
    ((maxDistance < getDistance reference (position h))%Q
     \/ estimateUpdated h = false)
    /\ ((2 # 10) < fst (getPointQuality h reference skinMask 0))%Q in
  let result := improveByAreaSearch h skinMask reference in
  (snd result = true <-> searched)
  /\ (searched ->
      fst result
      = set_position h
          (lookAround reference skinMask 10 4
             (truncQ ((85 # 10) * cmInPixels h)) FREE_SEARCH))
  /\ (~ searched -> snd result = false /\ fst result = h).
Proof.
  intros maxDistance searched result.
  assert (Hpt := getPointQuality_point h reference skinMask 0).
  subst result searched. unfold improveByAreaSearch. fold maxDistance.
  destruct (getPointQuality h reference skinMask 0) as [q p] eqn:Hq.
  simpl in Hpt. subst p. simpl fst.
  destruct (Qgtb (getDistance reference (position h)) maxDistance) eqn:Hd;
    destruct (estimateUpdated h) eqn:He;
    destruct (Qgtb q (2 # 10)) eqn:Hg; simpl;
    try apply Qgtb_gt in Hd; try apply Qgtb_le in Hd;
    try apply Qgtb_gt in Hg; try apply Qgtb_le in Hg;
    (split; [split|split]); try tauto; try discriminate; try reflexivity;
    try (intros [[H|H] H']; try discriminate; exfalso; lra);
    try (intros _; split; reflexivity);
    try (intros H; exfalso; apply H; tauto).
Qed.

(** ** Hand::getPredictedPosition *)

(** What [getPredictedPosition] computes: the gate looks at the quality of the
    linear extrapolation, whichever of the two candidates is preferred. *)
Lemma getPredictedPosition_gate (h : Hand) (skinMask : Mat) :
  let p1 := historySlot h 0 in
  let p2 := historySlot h 1 in
  let p3 := historySlot h 2 in
  let dx1 := px p1 - px p2 in let dy1 := py p1 - py p2 in
  let dx2 := px p2 - px p3 in let dy2 := py p2 - py p3 in
  let linear := mkPoint (px p1 + dx1) (py p1 + dy1) in
  let velocity :=
    mkPoint (px p1 + Z.quot (dx1 + dx2) 2) (py p1 + Z.quot (dy1 + dy2) 2) in
  let q := fst (getPointQuality h linear skinMask 0) in
  let qv := fst (getPointQuality h velocity skinMask 0) in
  getPredictedPosition h skinMask
  = if Qgtb q (2 # 10) then (if Qgtb qv q then velocity else linear)
    else mkPoint 0 0.
Proof.
  intros p1 p2 p3 dx1 dy1 dx2 dy2 linear velocity q qv.
  unfold getPredictedPosition.
  change (vec_get origin (positionHistory h) (positionIndex h)) with p1.
  change (vec_get origin (positionHistory h)
            (getPreviousIndex h (positionIndex h))) with p2.
  change (vec_get origin (positionHistory h)
            (getPreviousIndex h (getPreviousIndex h (positionIndex h)))) with p3.
  fold dx1 dy1 dx2 dy2. fold linear velocity.
  pose proof (getPointQuality_point h linear skinMask 0) as Hl.
  pose proof (getPointQuality_point h velocity skinMask 0) as Hv.
  subst q qv.
  destruct (getPointQuality h linear skinMask 0) as [q l'].
  destruct (getPointQuality h velocity skinMask 0) as [qv v'].
  simpl in *. subst l' v'. reflexivity.
Qed.

(** ** Hand::setEstimate *)

(** C5, amended.  When [setEstimate] is called with ONLY_HEAD and the stored
    [position.y] is 0 or above [faceCoverageThreshold], the estimate is
    rejected: [estimateUpdated], [position], [blobEstimate], [blobHistory]
    and [blobIndex] keep their values.  The one field that may change is
    [ignoreIntersect], which is set when the blob is HIGH or
    [ignoreIntersection] is passed. *)
Theorem setEstimate_only_head_rejected (h : Hand) (estimate : Point)
    (blob : BlobInformation) (ignoreIntersection : bool) :
  py (position h) = 0
  \/ (faceCoverageThreshold h < inject_Z (py (position h)))%Q ->
  let h' := setEstimate h estimate blob ignoreIntersection ONLY_HEAD in
  h' = (if (match type blob with HIGH => true | _ => false end)
           || ignoreIntersection
        then set_ignoreIntersect h true else h)
  /\ estimateUpdated h' = estimateUpdated h
  /\ position h' = position h
  /\ blobEstimate h' = blobEstimate h
  /\ blobHistory h' = blobHistory h
  /\ blobIndex h' = blobIndex h.
Proof.
  intros Hrej h'. subst h'. unfold setEstimate.
  set (flag := (match type blob with HIGH => true | _ => false end)
               || ignoreIntersection).
  assert (Hgate :
    forall g : Hand, position g = position h ->
      faceCoverageThreshold g = faceCoverageThreshold h ->
      (py (position g) =? 0)
      || Qgtb (inject_Z (py (position g))) (faceCoverageThreshold g) = true).
  { intros g Hp Hf. rewrite Hp, Hf. apply orb_true_iff.
    destruct Hrej as [H0|Hgt].
    - left. apply Z.eqb_eq. exact H0.
    - right. apply Qgtb_gt. exact Hgt. }
  destruct flag.
  - rewrite (Hgate (set_ignoreIntersect h true)) by reflexivity.
    repeat split.
  - rewrite (Hgate h) by reflexivity. repeat split.
Qed.

(** ** Hand::handleIntersection *)

(** [clampedRootLt] is the comparison of the source, read over the reals. *)
Lemma clampedRootLt_sqrt (n m : Z) :
  0 <= n ->
  clampedRootLt n m = true <-> (Rmax 1 (sqrt (IZR n)) < IZR m)%R.
Proof.
  intros Hn. unfold clampedRootLt. rewrite andb_true_iff, !Z.ltb_lt. split.
  - intros [H1 H2]. apply Rmax_lub_lt.
    + apply IZR_lt. exact H1.
    + rewrite <- (sqrt_square (IZR m)) by (apply IZR_le; lia).
      apply sqrt_lt_1_alt. split; [apply IZR_le; exact Hn|].
      rewrite <- mult_IZR. apply IZR_lt. exact H2.
  - intros H.
    assert (H1 : 1 < m).
    { apply lt_IZR. eapply Rle_lt_trans; [apply Rmax_l|exact H]. }
    split; [exact H1|].
    destruct (Z_lt_le_dec n (m * m)) as [Hlt|Hge]; [exact Hlt|exfalso].
    assert (Hs : (IZR m <= sqrt (IZR n))%R).
    { rewrite <- (sqrt_square (IZR m)) at 1 by (apply IZR_le; lia).
      apply sqrt_le_1_alt. rewrite <- mult_IZR. apply IZR_le. exact Hge. }
    apply (Rlt_irrefl (IZR m)).
    eapply Rle_lt_trans; [|exact H].
    eapply Rle_trans; [exact Hs|apply Rmax_r].
Qed.

(** C7, amended.  When all four coordinates of the two positions are
    non-zero: the biased search ([SEARCH_LEFT] for the left hand,
    [SEARCH_RIGHT] for the right one) runs with a budget of 20 iterations
    exactly when the pixel distance, counted as at least 1, is below the
    threshold of 8 cm in whole pixels; it runs with a budget of 5 when the
    distance is not below that threshold but below twice it; [intersecting]
    is true afterwards exactly when the distance is below the threshold and
    [ignoreIntersect] was not set.  When one of the four coordinates is 0 the
    hand is left as it was. *)
Theorem handleIntersection_spec (h : Hand) (other : Point) (skinMask : Mat) :
  let m := truncQ (8 * cmInPixels h) in
  let d2 := (px (position h) - px other) * (px (position h) - px other)
            + (py (position h) - py other) * (py (position h) - py other) in
  let close := 1 < m /\ d2 < m * m in
  let near := 1 < 2 * m /\ d2 < (2 * m) * (2 * m) in
  let side := if leftHand h then SEARCH_LEFT else SEARCH_RIGHT in
  let search n :=
    lookAround (position h) skinMask n 3 (truncQ (5 * cmInPixels h)) side in
  let h' := handleIntersection h other skinMask in
  (px (position h) <> 0 /\ py (position h) <> 0
   /\ px other <> 0 /\ py other <> 0 ->
   (intersecting h' = true <-> close /\ ignoreIntersect h = false)
   /\ (close -> position h' = search 20)
   /\ (~ close -> near -> position h' = search 5)
   /\ (~ close -> ~ near -> position h' = position h)
   /\ (ignoreIntersect h = true -> intersecting h' = false))
  /\ (px (position h) = 0 \/ py (position h) = 0
      \/ px other = 0 \/ py other = 0 -> h' = h).
Proof.
  clear getDistance. intros m d2 close near side search h'.
  subst h'. unfold handleIntersection.
  change (cmInPixels (set_intersecting h false)) with (cmInPixels h).
  change (position (set_intersecting h false)) with (position h).
  change (leftHand (set_intersecting h false)) with (leftHand h).
  fold m side.
  replace (Z.abs (px (position h) - px other) * Z.abs (px (position h) - px other)
           + Z.abs (py (position h) - py other) * Z.abs (py (position h) - py other))
    with d2 by (subst d2; rewrite !Z.abs_square; reflexivity).
  assert (Hc : clampedRootLt d2 m = true <-> close).
  { unfold clampedRootLt, close.
    rewrite andb_true_iff, !Z.ltb_lt. reflexivity. }
  assert (Hn : clampedRootLt d2 (2 * m) = true <-> near).
  { unfold clampedRootLt, near.
    rewrite andb_true_iff, !Z.ltb_lt. reflexivity. }
  split.
  - intros (H1 & H2 & H3 & H4).
    apply Z.eqb_neq in H1, H2, H3, H4. rewrite H1, H2, H3, H4. simpl andb.
    cbv iota.
    destruct (clampedRootLt d2 m) eqn:Ec;
      [ assert (Kc : close) by (apply Hc; reflexivity)
      | assert (Kc : ~ close) by (intros X; apply Hc in X; discriminate);
        destruct (clampedRootLt d2 (2 * m)) eqn:En;
        [ assert (Kn : near) by (apply Hn; reflexivity)
        | assert (Kn : ~ near) by (intros X; apply Hn in X; discriminate) ] ];
      clear Hc Hn; subst close near;
      unfold improveByCoverage; simpl;
      destruct (ignoreIntersect h) eqn:Ei; simpl;
      repeat split; intros; try tauto; try discriminate; try reflexivity;
      try (exfalso; intuition congruence).
  - intros H.
    destruct (px (position h) =? 0) eqn:H1; [reflexivity|].
    destruct (py (position h) =? 0) eqn:H2; [reflexivity|].
    destruct (px other =? 0) eqn:H3; [reflexivity|].
    destruct (py other =? 0) eqn:H4; [reflexivity|].
    apply Z.eqb_neq in H1, H2, H3, H4. lia.
Qed.

(** C8, amended.  After a call of [handleIntersection] in which all four
    coordinates of the two positions are non-zero, [ignoreIntersect] is
    false; in a call where one of them is 0 the hand, and with it the flag,
    is left as it was. *)
Theorem handleIntersection_clears_flag (h : Hand) (other : Point)
    (skinMask : Mat) :
  let h' := handleIntersection h other skinMask in
  (px (position h) <> 0 /\ py (position h) <> 0
   /\ px other <> 0 /\ py other <> 0 -> ignoreIntersect h' = false)
  /\ (px (position h) = 0 \/ py (position h) = 0
      \/ px other = 0 \/ py other = 0 ->
      ignoreIntersect h' = ignoreIntersect h).
Proof.
  intros h'. subst h'. unfold handleIntersection. split.
  - intros (H1 & H2 & H3 & H4).
    apply Z.eqb_neq in H1, H2, H3, H4. rewrite H1, H2, H3, H4. reflexivity.
  - intros H.
    destruct (px (position h) =? 0) eqn:H1; [reflexivity|].
    destruct (py (position h) =? 0) eqn:H2; [reflexivity|].
    destruct (px other =? 0) eqn:H3; [reflexivity|].
    destruct (py other =? 0) eqn:H4; [reflexivity|].
    apply Z.eqb_neq in H1, H2, H3, H4. lia.
Qed.

(** ** Hand::solve *)

(** The recovery stages write the position and nothing else. *)
Lemma improveByAreaSearch_frame (h : Hand) (skinMask : Mat) (p : Point) :
  let h' := fst (improveByAreaSearch h skinMask p) in
  h' = set_position h (position h').
Proof.
  unfold improveByAreaSearch.
  destruct (Qgtb _ _ || negb (estimateUpdated h));
    [destruct (getPointQuality h p skinMask 0) as [q p'];
     destruct (Qgtb q (2 # 10))|];
    simpl; try reflexivity; symmetry; apply set_position_same.
Qed.

Lemma solveEstimate_frame (h : Hand) :
  solveEstimate h = set_position h (position (solveEstimate h)).
Proof.
  unfold solveEstimate. destruct (estimateUpdated h); simpl;
    [reflexivity | symmetry; apply set_position_same].
Qed.

Lemma solveRecover_frame (h : Hand) (skinMask : Mat) :
  solveRecover h skinMask = set_position h (position (solveRecover h skinMask)).
Proof.
  unfold solveRecover.
  destruct (negb _ && negb _ && negb (intersecting h));
    [|symmetry; apply set_position_same].
  pose proof (improveByAreaSearch_frame h skinMask
                (vec_get origin (positionHistory h) (positionIndex h))) as H1.
  destruct (improveByAreaSearch h skinMask _) as [h1 searched]. simpl in H1.
  destruct searched; simpl; [exact H1|].
  destruct (negb _ && negb _); [|exact H1].
  pose proof (improveByAreaSearch_frame h1 skinMask
                (getPredictedPosition h1 skinMask)) as H2.
  simpl in H2. rewrite H2 at 1. rewrite H1 at 1. reflexivity.
Qed.

(** C10.  When, after the estimate and the recovery stages of [solve], the
    position has a coordinate equal to 0, the rest of [solve] only resets
    [estimateUpdated]: the position history and its index are those the call
    started with, and [estimateUpdated] is false on return. *)
Theorem solve_skips_uninitialized (h : Hand) (skinMask : Mat)
    (blobs : list BlobInformation) (movementMap : Mat) :
  let recovered := solveRecover (solveEstimate h) skinMask in
  px (position recovered) = 0 \/ py (position recovered) = 0 ->
  let h' := solve h skinMask blobs movementMap in
  h' = set_estimateUpdated recovered false
  /\ positionHistory h' = positionHistory h
  /\ positionIndex h' = positionIndex h
  /\ estimateUpdated h' = false.
Proof.
  intros recovered Hzero h'. subst h'. unfold solve. fold recovered.
  assert (Hskip : solveRefine recovered skinMask blobs movementMap = recovered).
  { unfold solveRefine.
    destruct Hzero as [H|H]; rewrite H; simpl;
      [reflexivity | rewrite andb_false_r; reflexivity]. }
  rewrite Hskip. split; [reflexivity|].
  subst recovered.
  rewrite solveRecover_frame, solveEstimate_frame. simpl. auto.
Qed.

(** ** Hand::improveUsingHistory *)

Lemma historySum_five (h : Hand) :
  let s := historySlot h in
  historySum h 5 (positionIndex h) 0%Q 0%Q
  = if ((px (s 0%nat) =? 0) && (py (s 0%nat) =? 0))
       || ((px (s 1%nat) =? 0) && (py (s 1%nat) =? 0))
       || ((px (s 2%nat) =? 0) && (py (s 2%nat) =? 0))
       || ((px (s 3%nat) =? 0) && (py (s 3%nat) =? 0))
       || ((px (s 4%nat) =? 0) && (py (s 4%nat) =? 0))
    then None
    else Some
      (0 + inject_Z (px (s 0%nat)) + inject_Z (px (s 1%nat))
       + inject_Z (px (s 2%nat)) + inject_Z (px (s 3%nat))
       + inject_Z (px (s 4%nat)),
       0 + inject_Z (py (s 0%nat)) + inject_Z (py (s 1%nat))
       + inject_Z (py (s 2%nat)) + inject_Z (py (s 3%nat))
       + inject_Z (py (s 4%nat)))%Q.
Proof.
  intros s. subst s. unfold historySlot. cbn [historySum Nat.iter nat_rect].
  destruct ((px _ =? 0) && (py _ =? 0)); [reflexivity|].
  destruct ((px _ =? 0) && (py _ =? 0)); [reflexivity|].
  destruct ((px _ =? 0) && (py _ =? 0)); [reflexivity|].
  destruct ((px _ =? 0) && (py _ =? 0)); [reflexivity|].
  destruct ((px _ =? 0) && (py _ =? 0)); reflexivity.
Qed.

Lemma mean_of_five (a b c d e : Z) :
  ((0 + inject_Z a + inject_Z b + inject_Z c + inject_Z d + inject_Z e) / 5
   == inject_Z (a + b + c + d + e) / 5)%Q.
Proof. rewrite !inject_Z_plus. field. Qed.

Lemma improveUsingHistory_unfold (h : Hand) (skinMask movementMap : Mat) :
  let s := historySlot h in
  let avgX := (inject_Z (px (s 0%nat) + px (s 1%nat) + px (s 2%nat)
                         + px (s 3%nat) + px (s 4%nat)) / 5)%Q in
  let avgY := (inject_Z (py (s 0%nat) + py (s 1%nat) + py (s 2%nat)
                         + py (s 3%nat) + py (s 4%nat)) / 5)%Q in
  let motion := fst (getPointQuality h (position h) movementMap 30) in
  let mix a b := mkPoint (blend a avgX b (px (position h)))
                         (blend a avgY b (py (position h))) in
  improveUsingHistory h skinMask movementMap
  = if ((px (s 0%nat) =? 0) && (py (s 0%nat) =? 0))
       || ((px (s 1%nat) =? 0) && (py (s 1%nat) =? 0))
       || ((px (s 2%nat) =? 0) && (py (s 2%nat) =? 0))
       || ((px (s 3%nat) =? 0) && (py (s 3%nat) =? 0))
       || ((px (s 4%nat) =? 0) && (py (s 4%nat) =? 0))
    then h
    else if Qltb motion (1 # 1000) then set_position h (mix (95 # 100) (5 # 100))
    else if Qltb motion (5 # 100) then set_position h (mix (8 # 10) (2 # 10))
    else if Qltb motion (2 # 10) then set_position h (mix (5 # 10) (5 # 10))
    else h.
Proof.
  intros s avgX avgY motion mix.
  unfold improveUsingHistory. rewrite historySum_five. fold s.
  destruct (_ || _); [reflexivity|].
  pose proof (getPointQuality_point h (position h) movementMap 30) as Hp.
  subst motion.
  destruct (getPointQuality h (position h) movementMap 30) as [mc p].
  simpl in Hp. subst p. simpl fst. rewrite set_position_same.
  subst mix avgX avgY. cbv beta.
  destruct (Qltb mc (1 # 1000));
    [|destruct (Qltb mc (5 # 100)); [|destruct (Qltb mc (2 # 10))]];
    try reflexivity;
    (f_equal; f_equal; apply blend_comp, mean_of_five).
Qed.

(** ** Hand::getCoverage *)

Lemma cvSum_ext (a b : Mat) :
  rows a = rows b -> cols a = cols b ->
  (forall x y, 0 <= x < cols a -> 0 <= y < rows a -> at_ a x y = at_ b x y) ->
  cvSum a = cvSum b.
Proof.
  intros Hr Hc H. unfold cvSum. rewrite <- Hr, <- Hc.
  apply sumTo_ext. intros y Hy. apply sumTo_ext. intros x Hx.
  apply H; lia.
Qed.

Lemma sumTo_scale (n : nat) (k : Z) (f : Z -> Z) :
  sumTo n (fun i => k * f i) = k * sumTo n f.
Proof. induction n as [|n IH]; simpl; [lia|]. rewrite IH. lia. Qed.

Lemma Qdiv_by_zero (x d : Q) : (d == 0)%Q -> (x / d == 0)%Q.
Proof.
  intros H. rewrite H. unfold Qdiv. change (/ 0)%Q with 0%Q. ring.
Qed.

Lemma coverage_uniform_on (pos : Point) (radius r c : Z) :
  cvSum (bitwise_and (uniformMask r c 255)
           (circle (zeros r c) pos radius 255))
  = 255 * paintedPixels pos radius r c.
Proof.
  unfold paintedPixels, cvSum. simpl.
  rewrite <- sumTo_scale. apply sumTo_ext. intros y _.
  rewrite <- sumTo_scale. apply sumTo_ext. intros x _.
  destruct (cvCircleFilled pos radius x y); reflexivity.
Qed.

Lemma sumTo_at_most (n : nat) (k : Z) (f : Z -> Z) :
  (forall i, f i <= k) -> sumTo n f <= Z.of_nat n * k.
Proof.
  intros H. induction n as [|n IH]; simpl sumTo; [lia|].
  specialize (H (Z.of_nat n)). lia.
Qed.

Lemma paintedPixels_at_most (pos : Point) (radius r c : Z) :
  0 <= r -> 0 <= c -> 0 <= paintedPixels pos radius r c <= r * c.
Proof.
  intros Hr Hc. unfold paintedPixels, cvSum. simpl. split.
  - apply sumTo_nonneg. intros y. apply sumTo_nonneg. intros x.
    destruct (cvCircleFilled pos radius x y); lia.
  - replace (r * c) with (Z.of_nat (Z.to_nat r) * c) by lia.
    apply sumTo_at_most. intros y.
    replace c with (Z.of_nat (Z.to_nat c) * 1) at 2 by lia.
    apply sumTo_at_most. intros x.
    destruct (cvCircleFilled pos radius x y); lia.
Qed.

(** C9, amended.  For a radius above 0, [getCoverage] is the sum of the mask
    values inside the painted circle divided by [radius * radius * 3.1415 *
    255]; it is never negative; on a mask whose pixels are all 0 it is 0; on
    a mask of [r] rows and [c] columns whose pixels are all 255 it is the
    number of mask pixels the circle paints divided by [radius * radius *
    3.1415], a number that is at most [r * c]. *)
Theorem getCoverage_spec (pos : Point) (blobMap : Mat) (radius : Z) :
  0 < radius ->
  let inside :=
    mkMat (rows blobMap) (cols blobMap)
      (fun x y => if cvCircleFilled pos radius x y
                  then Z.land (at_ blobMap x y) 255 else 0) in
  (getCoverage pos blobMap radius
   * (inject_Z (radius * radius) * (31415 # 10000) * 255)
   == inject_Z (cvSum inside))%Q
  /\ (0 <= getCoverage pos blobMap radius)%Q
  /\ (forall r c, getCoverage pos (uniformMask r c 0) radius == 0)%Q
  /\ (forall r c,
        0 <= r -> 0 <= c ->
        (getCoverage pos (uniformMask r c 255) radius
         == inject_Z (paintedPixels pos radius r c)
            / (inject_Z (radius * radius) * (31415 # 10000)))%Q
        /\ 0 <= paintedPixels pos radius r c <= r * c).
Proof.
  intros Hradius inside.
  assert (Hd : ~ (inject_Z radius == 0)%Q).
  { intros H. apply (inject_Z_injective radius 0) in H. lia. }
  split; [|split; [apply getCoverage_nonneg|split]].
  - unfold getCoverage.
    replace (cvSum (bitwise_and blobMap
                      (circle (zeros (rows blobMap) (cols blobMap)) pos radius 255)))
      with (cvSum inside).
    + rewrite inject_Z_mult. field. exact Hd.
    + apply cvSum_ext; try reflexivity. intros x y _ _. simpl.
      destruct (cvCircleFilled pos radius x y); [reflexivity|].
      symmetry. apply Z.land_0_r.
  - intros r c. unfold getCoverage.
    replace (cvSum _) with 0.
    + unfold Qdiv. apply Qmult_0_l.
    + unfold cvSum. simpl. symmetry.
      erewrite sumTo_ext; [apply sumTo_zero|]. intros y _. simpl.
      apply sumTo_zero.
  - intros r c Hr Hc. split; [|apply paintedPixels_at_most; assumption].
    unfold getCoverage.
    change (rows (uniformMask r c 255)) with r.
    change (cols (uniformMask r c 255)) with c.
    rewrite coverage_uniform_on.
    rewrite !inject_Z_mult. field. exact Hd.
Qed.

(** ** The history deck *)

(** X1.  Inside the deck, [getNextIndex] and [getPreviousIndex] undo each
    other. *)
Theorem history_index_round_trip (h : Hand) (i : Z) :
  0 <= i < historySize h ->
  getPreviousIndex h (getNextIndex h i) = i
  /\ getNextIndex h (getPreviousIndex h i) = i.
Proof.
  intros Hi. unfold getPreviousIndex, getNextIndex. split.
  - destruct (Z.eq_dec (i + 1) (historySize h)) as [E|E].
    + rewrite E, Z.rem_same by lia. simpl. lia.
    + rewrite Z.rem_small by lia.
      destruct (i + 1 - 1 <? 0) eqn:F; [apply Z.ltb_lt in F; lia|lia].
  - destruct (i - 1 <? 0) eqn:F.
    + apply Z.ltb_lt in F. replace (i - 1 + historySize h + 1)
        with (historySize h) by lia.
      rewrite Z.rem_same by lia. lia.
    + apply Z.ltb_ge in F. replace (i - 1 + 1) with i by lia.
      apply Z.rem_small. lia.
Qed.

(** X2.  Both index functions stay inside the deck, and they wrap: the slot
    after the last is slot 0, the slot before slot 0 is the last. *)
Theorem history_index_in_range (h : Hand) (i : Z) :
  0 <= i < historySize h ->
  0 <= getNextIndex h i < historySize h
  /\ 0 <= getPreviousIndex h i < historySize h
  /\ getNextIndex h (historySize h - 1) = 0
  /\ getPreviousIndex h 0 = historySize h - 1.
Proof.
  intros Hi. unfold getPreviousIndex, getNextIndex.
  repeat split.
  - apply Z.rem_nonneg; lia.
  - destruct (Z.eq_dec (i + 1) (historySize h)) as [E|E].
    + rewrite E, Z.rem_same by lia. lia.
    + rewrite Z.rem_small by lia. lia.
  - destruct (i - 1 <? 0) eqn:F; [apply Z.ltb_lt in F|apply Z.ltb_ge in F]; lia.
  - destruct (i - 1 <? 0) eqn:F; [apply Z.ltb_lt in F|apply Z.ltb_ge in F]; lia.
  - replace (historySize h - 1 + 1) with (historySize h) by lia.
    apply Z.rem_same. lia.
  - simpl. lia.
Qed.

(** ** Slots of a vector *)

Lemma vec_set_length {A : Type} (v : list A) (i : Z) (a : A) :
  length (vec_set v i a) = length v.
Proof. unfold vec_set. destruct (i <? 0); [reflexivity|apply length_insert]. Qed.

Lemma vec_get_set_eq {A : Type} (d : A) (v : list A) (i : Z) (a : A) :
  0 <= i < Z.of_nat (length v) -> vec_get d (vec_set v i a) i = a.
Proof.
  intros Hi. unfold vec_get, vec_set.
  destruct (i <? 0) eqn:F; [apply Z.ltb_lt in F; lia|].
  rewrite nth_lookup, list_lookup_insert_eq by lia. reflexivity.
Qed.

Lemma vec_get_set_ne {A : Type} (d : A) (v : list A) (i j : Z) (a : A) :
  i <> j -> vec_get d (vec_set v i a) j = vec_get d v j.
Proof.
  intros Hne. unfold vec_get, vec_set.
  destruct (j <? 0) eqn:Fj; [reflexivity|].
  destruct (i <? 0) eqn:Fi; [reflexivity|].
  apply Z.ltb_ge in Fi, Fj.
  rewrite !nth_lookup, list_lookup_insert_ne by lia. reflexivity.
Qed.

(** ** Hand::getSearchModeFromBlobs *)

(** X3.  Whatever the blobs, the mode chosen from them is never one of the
    two sideways modes. *)
Theorem getSearchModeFromBlobs_not_sideways (h : Hand)
    (blobs : list BlobInformation) :
  getSearchModeFromBlobs h blobs <> SEARCH_LEFT
  /\ getSearchModeFromBlobs h blobs <> SEARCH_RIGHT.
Proof.
  induction blobs as [|b rest IH]; simpl.
  - split; discriminate.
  - destruct (_ && _); [|exact IH].
    destruct (Qltb _ _); [split; discriminate|].
    destruct (type b); try (split; discriminate).
    destruct (Qgtb _ _); split; discriminate.
Qed.

(** X4.  When no blob of the list has the position inside its bounding box
    (in particular for an empty list) the mode is FREE_SEARCH. *)
Theorem getSearchModeFromBlobs_no_blob (h : Hand) (blobs : list BlobInformation) :
  (forall b, In b blobs -> blobContains h b = false) ->
  getSearchModeFromBlobs h blobs = FREE_SEARCH.
Proof.
  induction blobs as [|b rest IH]; intros Hnone; simpl; [reflexivity|].
  pose proof (Hnone b (or_introl eq_refl)) as Hb. unfold blobContains in Hb.
  rewrite Hb. apply IH. intros c Hc. apply Hnone. right. exact Hc.
Qed.

(** X5.  The first blob whose bounding box has the position inside decides:
    the blobs before it are skipped and the blobs after it are not looked
    at.  A blob lower than 15 cm gives FREE_SEARCH whatever its type. *)
Theorem getSearchModeFromBlobs_first_match (h : Hand)
    (before after : list BlobInformation) (b : BlobInformation) :
  (forall c, In c before -> blobContains h c = false) ->
  blobContains h b = true ->
  getSearchModeFromBlobs h (before ++ b :: after)
  = getSearchModeFromBlobs h [b]
  /\ ((inject_Z (py (bottom b) - py (top b)) < 15 * cmInPixels h)%Q ->
      getSearchModeFromBlobs h (before ++ b :: after) = FREE_SEARCH).
Proof.
  intros Hbefore Hb.
  assert (E : getSearchModeFromBlobs h (before ++ b :: after)
              = getSearchModeFromBlobs h [b]).
  { induction before as [|c rest IH]; simpl.
    - unfold blobContains in Hb. rewrite Hb. reflexivity.
    - pose proof (Hbefore c (or_introl eq_refl)) as Hc.
      unfold blobContains in Hc. rewrite Hc. apply IH.
      intros c' Hc'. apply Hbefore. right. exact Hc'. }
  split; [exact E|].
  intros Hlow. rewrite E. simpl. unfold blobContains in Hb. rewrite Hb.
  apply Qltb_lt in Hlow. rewrite Hlow. reflexivity.
Qed.

(** ** Hand::updateLastPoint *)

(** X6.  [updateLastPoint] touches nothing but the history; the history keeps
    its length; every slot other than the one before [positionIndex] keeps
    its value; that slot, when it lies in the buffer and the slot two before
    [positionIndex] is not the sentinel, becomes the midpoint of its two
    neighbours (each coordinate stored as an [int]); and when the slot two
    before is the sentinel nothing is written. *)
Theorem updateLastPoint_spec (h : Hand) :
  let h' := updateLastPoint h in
  let p1_index := getPreviousIndex h (positionIndex h) in
  h' = set_positionHistory h (positionHistory h')
  /\ length (positionHistory h') = length (positionHistory h)
  /\ (forall i, i <> p1_index ->
        vec_get origin (positionHistory h') i
        = vec_get origin (positionHistory h) i)
  /\ (historySlot h 2 = origin -> h' = h)
  /\ (historySlot h 2 <> origin ->
      0 <= p1_index < Z.of_nat (length (positionHistory h)) ->
      vec_get origin (positionHistory h') p1_index
      = mkPoint
          (truncQ ((5 # 10) * inject_Z (px (historySlot h 0) + px (historySlot h 2))))
          (truncQ ((5 # 10) * inject_Z (py (historySlot h 0) + py (historySlot h 2))))).
Proof.
  intros h' p1_index. subst h'. unfold updateLastPoint. fold p1_index.
  change (vec_get origin (positionHistory h) (getPreviousIndex h p1_index))
    with (historySlot h 2).
  change (vec_get origin (positionHistory h) (positionIndex h))
    with (historySlot h 0).
  destruct ((px (historySlot h 2) =? 0) && (py (historySlot h 2) =? 0)) eqn:E.
  - apply is_origin_iff in E.
    repeat split; try reflexivity; try (destruct h; reflexivity).
    intros Hne. contradiction.
  - assert (Hne : historySlot h 2 <> origin).
    { intros H. apply is_origin_iff in H. congruence. }
    simpl. repeat split.
    + apply vec_set_length.
    + intros i Hi. apply vec_get_set_ne. congruence.
    + intros H. contradiction.
    + intros _ Hr. apply vec_get_set_eq. exact Hr.
Qed.

(** ** Hand::solve: what a frame keeps *)

Lemma getPreviousIndex_getNextIndex (h : Hand) (i : Z) :
  0 <= i < historySize h -> getPreviousIndex h (getNextIndex h i) = i.
Proof.
  intros Hi. unfold getPreviousIndex, getNextIndex.
  destruct (Z.eq_dec (i + 1) (historySize h)) as [E|E].
  - rewrite E, Z.rem_same by lia. simpl. lia.
  - rewrite Z.rem_small by lia.
    destruct (i + 1 - 1 <? 0) eqn:F; [apply Z.ltb_lt in F; lia|lia].
Qed.

Lemma getNextIndex_range (h : Hand) (i : Z) :
  0 <= i < historySize h ->
  0 <= getNextIndex h i < historySize h
  /\ (2 <= historySize h -> getNextIndex h i <> i).
Proof.
  intros Hi. unfold getNextIndex.
  destruct (Z.eq_dec (i + 1) (historySize h)) as [E|E].
  - rewrite E, Z.rem_same by lia. lia.
  - rewrite Z.rem_small by lia. lia.
Qed.

Lemma improveUsingHistory_frame (h : Hand) (skinMask movementMap : Mat) :
  improveUsingHistory h skinMask movementMap
  = set_position h (position (improveUsingHistory h skinMask movementMap)).
Proof.
  rewrite improveUsingHistory_unfold.
  destruct (_ || _); [symmetry; apply set_position_same|].
  destruct (Qltb _ _); [reflexivity|].
  destruct (Qltb _ _); [reflexivity|].
  destruct (Qltb _ _); [reflexivity|].
  symmetry; apply set_position_same.
Qed.

Lemma updateLastPoint_frame (h : Hand) :
  let h' := updateLastPoint h in
  h' = set_positionHistory h (positionHistory h')
  /\ length (positionHistory h') = length (positionHistory h)
  /\ (forall i, i <> getPreviousIndex h (positionIndex h) ->
        vec_get origin (positionHistory h') i
        = vec_get origin (positionHistory h) i).
Proof.
  unfold updateLastPoint.
  destruct (_ && _).
  - repeat split; destruct h; reflexivity.
  - simpl. repeat split.
    + apply vec_set_length.
    + intros i Hi. apply vec_get_set_ne. congruence.
Qed.

(** The refinement stage, when it runs: the refined position goes into the
    slot after [positionIndex], then [updateLastPoint]. *)
Lemma solveRefine_refined (h : Hand) (skinMask : Mat)
    (blobs : list BlobInformation) (movementMap : Mat) :
  px (position h) <> 0 -> py (position h) <> 0 ->
  let refined :=
    position
      (improveUsingHistory
         (improveByCoverage h skinMask (getSearchModeFromBlobs h blobs) 5)
         skinMask movementMap) in
  let index := getNextIndex h (positionIndex h) in
  solveRefine h skinMask blobs movementMap
  = updateLastPoint
      (set_positionHistory (set_positionIndex (set_position h refined) index)
         (vec_set (positionHistory h) index refined)).
Proof.
  intros Hx Hy refined index. unfold solveRefine.
  apply Z.eqb_neq in Hx, Hy. rewrite Hx, Hy. simpl negb. simpl andb. cbv zeta.
  subst refined.
  set (ha := improveByCoverage h skinMask (getSearchModeFromBlobs h blobs) 5).
  rewrite (improveUsingHistory_frame ha skinMask movementMap).
  reflexivity.
Qed.

Lemma solveRefine_skipped (h : Hand) (skinMask : Mat)
    (blobs : list BlobInformation) (movementMap : Mat) :
  px (position h) = 0 \/ py (position h) = 0 ->
  solveRefine h skinMask blobs movementMap = h.
Proof.
  intros H. unfold solveRefine.
  destruct H as [H|H]; rewrite H; simpl;
    [reflexivity | rewrite andb_false_r; reflexivity].
Qed.

(** The estimate and recovery stages of [solve] give the hand back with a
    new position. *)
Lemma solve_recovered (h : Hand) (skinMask : Mat) :
  let recovered := solveRecover (solveEstimate h) skinMask in
  recovered = set_position h (position recovered).
Proof.
  intros recovered. subst recovered.
  rewrite solveRecover_frame at 1. rewrite solveEstimate_frame at 1.
  reflexivity.
Qed.

Lemma coordinate_cases (p : Point) :
  (px p <> 0 /\ py p <> 0) \/ (px p = 0 \/ py p = 0).
Proof. destruct (Z.eq_dec (px p) 0), (Z.eq_dec (py p) 0); tauto. Qed.

(** X7.  A call of [solve] leaves the blob estimate, the blob history and its
    index, the two intersection flags, the role and the scale constants as
    they were, never changes the number of slots of the position history,
    and always returns with [estimateUpdated] reset. *)
Theorem solve_keeps_setup (h : Hand) (skinMask : Mat)
    (blobs : list BlobInformation) (movementMap : Mat) :
  let h' := solve h skinMask blobs movementMap in
  sameSetup h h'
  /\ length (positionHistory h') = length (positionHistory h)
  /\ estimateUpdated h' = false.
Proof.
  intros h'. subst h'. unfold solve.
  pose proof (solve_recovered h skinMask) as Hr. cbv zeta in Hr.
  set (recovered := solveRecover (solveEstimate h) skinMask) in *.
  destruct (coordinate_cases (position recovered)) as [[Hx Hy]|Hz].
  - rewrite (solveRefine_refined recovered skinMask blobs movementMap Hx Hy).
    cbv zeta.
    match goal with
    | |- context [updateLastPoint ?g] =>
        destruct (updateLastPoint_frame g) as (Hu & Hl & _);
        set (u := updateLastPoint g) in *
    end.
    rewrite Hu. simpl. rewrite Hl. simpl. rewrite vec_set_length.
    rewrite Hr. simpl. unfold sameSetup. simpl. repeat split.
  - rewrite (solveRefine_skipped recovered skinMask blobs movementMap Hz).
    rewrite Hr. simpl. unfold sameSetup. simpl. repeat split.
Qed.

(** X8.  [solve] keeps [positionIndex] inside the deck: it either stays or
    advances by [getNextIndex]. *)
Theorem solve_index_in_range (h : Hand) (skinMask : Mat)
    (blobs : list BlobInformation) (movementMap : Mat) :
  0 <= positionIndex h < historySize h ->
  let h' := solve h skinMask blobs movementMap in
  (positionIndex h' = positionIndex h
   \/ positionIndex h' = getNextIndex h (positionIndex h))
  /\ 0 <= positionIndex h' < historySize h.
Proof.
  intros Hi h'. subst h'. unfold solve.
  pose proof (solve_recovered h skinMask) as Hr. cbv zeta in Hr.
  set (recovered := solveRecover (solveEstimate h) skinMask) in *.
  destruct (coordinate_cases (position recovered)) as [[Hx Hy]|Hz].
  - rewrite (solveRefine_refined recovered skinMask blobs movementMap Hx Hy).
    cbv zeta.
    match goal with
    | |- context [updateLastPoint ?g] =>
        destruct (updateLastPoint_frame g) as (Hu & _ & _);
        set (u := updateLastPoint g) in *
    end.
    rewrite Hu. simpl. rewrite Hr. simpl.
    split; [right; reflexivity|].
    exact (proj1 (getNextIndex_range h (positionIndex h) Hi)).
  - rewrite (solveRefine_skipped recovered skinMask blobs movementMap Hz).
    rewrite Hr. simpl. split; [left; reflexivity|exact Hi].
Qed.

(** X9.  In a well-formed deck of at least two slots, when [solve] refines
    (both coordinates of the position after recovery are non-zero), the index
    advances with [getNextIndex], the slot it then points at holds the
    position [solve] returns with, and the only other slot that can change is
    the one [positionIndex] pointed at before. *)
Theorem solve_newest_slot (h : Hand) (skinMask : Mat)
    (blobs : list BlobInformation) (movementMap : Mat) :
  0 <= positionIndex h < historySize h ->
  Z.of_nat (length (positionHistory h)) = historySize h ->
  2 <= historySize h ->
  let recovered := solveRecover (solveEstimate h) skinMask in
  px (position recovered) <> 0 -> py (position recovered) <> 0 ->
  let h' := solve h skinMask blobs movementMap in
  positionIndex h' = getNextIndex h (positionIndex h)
  /\ vec_get origin (positionHistory h') (positionIndex h') = position h'
  /\ (forall i, i <> positionIndex h' -> i <> positionIndex h ->
        vec_get origin (positionHistory h') i
        = vec_get origin (positionHistory h) i).
Proof.
  intros Hi Hlen Hsize recovered Hx Hy h'. subst h'. unfold solve.
  pose proof (solve_recovered h skinMask) as Hr. cbv zeta in Hr.
  fold recovered in Hr |- *.
  rewrite (solveRefine_refined recovered skinMask blobs movementMap Hx Hy).
  cbv zeta.
  set (refined := position (improveUsingHistory _ _ _)).
  assert (Hidx : getNextIndex recovered (positionIndex recovered)
                 = getNextIndex h (positionIndex h))
    by (rewrite Hr; reflexivity).
  assert (Hhist : positionHistory recovered = positionHistory h)
    by (rewrite Hr; reflexivity).
  rewrite Hidx, Hhist.
  set (index := getNextIndex h (positionIndex h)).
  destruct (getNextIndex_range h (positionIndex h) Hi) as [Hrange Hne].
  fold index in Hrange, Hne. specialize (Hne Hsize).
  match goal with
  | |- context [updateLastPoint ?g] =>
      destruct (updateLastPoint_frame g) as (Hu & _ & Hslots);
      set (u := updateLastPoint g) in *
  end.
  simpl in Hslots.
  assert (Hprev : getPreviousIndex
                    (set_positionHistory
                       (set_positionIndex (set_position recovered refined) index)
                       (vec_set (positionHistory h) index refined)) index
                  = positionIndex h).
  { rewrite Hr. apply (getPreviousIndex_getNextIndex h). exact Hi. }
  rewrite Hprev in Hslots.
  rewrite Hu. simpl. split; [reflexivity|]. split.
  - rewrite Hslots by exact Hne. apply vec_get_set_eq. lia.
  - intros i Hi1 Hi2. rewrite Hslots by exact Hi2.
    apply vec_get_set_ne. congruence.
Qed.

(** X10.  A lost hand is a steady state: when no estimate was accepted, the
    position has a coordinate equal to 0 and the recovery stage is off (the
    last stored position has a coordinate equal to 0, or the hand is marked
    as intersecting), [solve] returns the hand exactly as it was. *)
Theorem solve_lost_hand_steady (h : Hand) (skinMask : Mat)
    (blobs : list BlobInformation) (movementMap : Mat) :
  estimateUpdated h = false ->
  px (position h) = 0 \/ py (position h) = 0 ->
  px (historySlot h 0) = 0 \/ py (historySlot h 0) = 0 \/ intersecting h = true ->
  solve h skinMask blobs movementMap = h.
Proof.
  intros He Hp Hlast. unfold solve.
  assert (H1 : solveEstimate h = h) by (unfold solveEstimate; rewrite He; reflexivity).
  rewrite H1.
  assert (H2 : solveRecover h skinMask = h).
  { unfold solveRecover.
    change (vec_get origin (positionHistory h) (positionIndex h))
      with (historySlot h 0).
    destruct Hlast as [H|[H|H]]; rewrite H; simpl;
      rewrite ?andb_false_r; reflexivity. }
  rewrite H2, (solveRefine_skipped h skinMask blobs movementMap Hp).
  destruct h. simpl in *. subst. reflexivity.
Qed.

(** ** Hand::lookAround: where the search can go *)

Lemma offset_units (searchMode : SearchMode) (stepSize : Z) (o : Z * Z) :
  In o (searchOffsets searchMode stepSize) ->
  exists ux uy,
    o = (ux * stepSize, uy * stepSize)
    /\ -1 <= ux <= 1 /\ -1 <= uy <= 1 /\ withBias searchMode ux uy.
Proof.
  intros H.
  destruct searchMode; simpl in H;
    repeat (destruct H as [H|H]; [|]); try contradiction; subst o;
    first
      [ exists 1, 1; simpl; split; [f_equal; lia|lia]
      | exists 1, (-1); simpl; split; [f_equal; lia|lia]
      | exists 1, 0; simpl; split; [f_equal; lia|lia]
      | exists (-1), 1; simpl; split; [f_equal; lia|lia]
      | exists (-1), (-1); simpl; split; [f_equal; lia|lia]
      | exists (-1), 0; simpl; split; [f_equal; lia|lia]
      | exists 0, 1; simpl; split; [f_equal; lia|lia]
      | exists 0, (-1); simpl; split; [f_equal; lia|lia] ].
Qed.

Lemma firstOffset_In (searchMode : SearchMode) (stepSize : Z) :
  In (firstOffset searchMode stepSize) (searchOffsets searchMode stepSize).
Proof. destruct searchMode; left; reflexivity. Qed.

(** An accepted move goes to the current point shifted by one of the offsets
    of the mode. *)
Lemma lookStep_offset (m : Mat) (stepSize radius : Z) (searchMode : SearchMode)
    (st st' : LookState) :
  lookStep m stepSize radius searchMode st = Some st' ->
  exists o, In o (searchOffsets searchMode stepSize)
            /\ maxPos st' = mkPoint (px (maxPos st) + fst o) (py (maxPos st) + snd o).
Proof.
  unfold lookStep.
  destruct (selectBest _ _ _ _ _) as [nm mi] eqn:Hsel.
  destruct (Qgeb nm (maxValue st)); [|discriminate].
  intros H. inversion H; subst st'; clear H. simpl.
  apply selectBest_spec in Hsel as [[_ ->]|(p & Hp & _ & _ & _)].
  - exists (firstOffset searchMode stepSize). split; [apply firstOffset_In|].
    destruct (candidate0 m (maxPos st) stepSize radius searchMode) as [Hc _].
    rewrite Hc. unfold shiftBy. f_equal; lia.
  - replace (mi - 0)%nat with mi in Hp by lia.
    rewrite (nth_map_snd _ _ _ _ Hp).
    apply nth_error_In in Hp. unfold candidates in Hp.
    apply in_map_iff in Hp as (o & Ho & Hin).
    exists o. split; [exact Hin|].
    unfold shiftPosition in Ho. inversion Ho. reflexivity.
Qed.

Lemma lookLoop_steps (m : Mat) (stepSize radius : Z) (searchMode : SearchMode) :
  forall (fuel : nat) (st : LookState),
  exists kx ky,
    Z.abs kx <= Z.of_nat fuel /\ Z.abs ky <= Z.of_nat fuel
    /\ withBias searchMode kx ky
    /\ maxPos (lookLoop m stepSize radius searchMode fuel st)
       = mkPoint (px (maxPos st) + kx * stepSize) (py (maxPos st) + ky * stepSize).
Proof.
  induction fuel as [|fuel IH]; intros st.
  - exists 0, 0. simpl. repeat split; try lia.
    + destruct searchMode; simpl; lia || exact I.
    + destruct (maxPos st). simpl. f_equal; lia.
  - simpl. destruct (lookStep m stepSize radius searchMode st) as [st'|] eqn:Hs.
    + apply lookStep_offset in Hs as (o & Ho & Hmove).
      apply offset_units in Ho as (ux & uy & -> & Hux & Huy & Hb).
      destruct (IH st') as (kx & ky & Hkx & Hky & Hk & Hpos).
      exists (ux + kx), (uy + ky). rewrite Hpos, Hmove. simpl.
      repeat split; try lia.
      * destruct searchMode; simpl in *; lia || exact I.
      * f_equal; lia.
    + exists 0, 0. repeat split; try lia.
      * destruct searchMode; simpl; lia || exact I.
      * destruct (maxPos st). simpl. f_equal; lia.
Qed.

Lemma lookAround_steps (start : Point) (skinMask : Mat)
    (maxIterations stepSize radius : Z) (searchMode : SearchMode) :
  exists kx ky,
    Z.abs kx <= Z.max 0 maxIterations /\ Z.abs ky <= Z.max 0 maxIterations
    /\ withBias searchMode kx ky
    /\ lookAround start skinMask maxIterations stepSize radius searchMode
       = mkPoint (px start + kx * stepSize) (py start + ky * stepSize).
Proof.
  unfold lookAround.
  set (space := getSearchSpace skinMask start None).
  destruct (lookLoop_steps (mat space) stepSize radius searchMode
              (Z.to_nat maxIterations) (lookInit start skinMask radius))
    as (kx & ky & Hkx & Hky & Hb & Hpos).
  exists kx, ky. repeat split; try lia; [exact Hb|].
  rewrite Hpos. unfold lookInit. fold space. simpl.
  unfold fromSearchSpace. simpl. f_equal; lia.
Qed.

(** X11.  The point [lookAround] returns lies on the grid of step
    [stepSize] through the starting point, at most [maxIterations] steps away
    in each coordinate; with [maxIterations <= 0] it is the starting point. *)
Theorem lookAround_reach (start : Point) (skinMask : Mat)
    (maxIterations stepSize radius : Z) (searchMode : SearchMode) :
  let result :=
    lookAround start skinMask maxIterations stepSize radius searchMode in
  (exists kx ky,
     Z.abs kx <= Z.max 0 maxIterations /\ Z.abs ky <= Z.max 0 maxIterations
     /\ result = mkPoint (px start + kx * stepSize) (py start + ky * stepSize))
  /\ Z.abs (px result - px start) <= Z.max 0 maxIterations * Z.abs stepSize
  /\ Z.abs (py result - py start) <= Z.max 0 maxIterations * Z.abs stepSize
  /\ (maxIterations <= 0 -> result = start).
Proof.
  intros result. subst result.
  destruct (lookAround_steps start skinMask maxIterations stepSize radius
              searchMode) as (kx & ky & Hkx & Hky & _ & ->).
  split; [exists kx, ky; auto|]. simpl.
  split; [|split].
  - replace (px start + kx * stepSize - px start) with (kx * stepSize) by lia.
    rewrite Z.abs_mul. apply Z.mul_le_mono_nonneg_r; lia.
  - replace (py start + ky * stepSize - py start) with (ky * stepSize) by lia.
    rewrite Z.abs_mul. apply Z.mul_le_mono_nonneg_r; lia.
  - intros H0. assert (kx = 0) by lia. assert (ky = 0) by lia. subst.
    destruct start. simpl. f_equal; lia.
Qed.

(** X12.  With a step size that is not negative, a biased search never ends
    on the wrong side of its start: SEARCH_RIGHT does not increase x,
    SEARCH_LEFT does not decrease x, SEARCH_UP does not increase y and
    SEARCH_DOWN does not decrease y. *)
Theorem lookAround_keeps_bias (start : Point) (skinMask : Mat)
    (maxIterations stepSize radius : Z) (searchMode : SearchMode) :
  0 <= stepSize ->
  let result :=
    lookAround start skinMask maxIterations stepSize radius searchMode in
  match searchMode with
  | SEARCH_RIGHT => px result <= px start
  | SEARCH_LEFT => px start <= px result
  | SEARCH_UP => py result <= py start
  | SEARCH_DOWN => py start <= py result
  | FREE_SEARCH => True
  end.
Proof.
  intros Hs result. subst result.
  destruct (lookAround_steps start skinMask maxIterations stepSize radius
              searchMode) as (kx & ky & _ & _ & Hb & ->).
  destruct searchMode; simpl in *; try exact I; nia.
Qed.

(** ** Hand::lookAround: a window without skin *)

Lemma getCoverage_dark (pos : Point) (m : Mat) (radius : Z) :
  (forall x y, 0 <= x < cols m -> 0 <= y < rows m -> at_ m x y = 0) ->
  (getCoverage pos m radius == 0)%Q.
Proof.
  intros Hdark. unfold getCoverage.
  replace (cvSum _) with 0.
  - unfold Qdiv. apply Qmult_0_l.
  - symmetry.
    rewrite (cvSum_ext _ (zeros (rows m) (cols m))); try reflexivity.
    + unfold cvSum. simpl.
      erewrite sumTo_ext; [apply sumTo_zero|]. intros y _. simpl.
      apply sumTo_zero.
    + intros x y Hx Hy. simpl in Hx, Hy |- *. rewrite Hdark by assumption.
      reflexivity.
Qed.

Lemma selectBest_nothing (visited : gset Z) (cands : list (Q * Point)) :
  (forall v p, In (v, p) cands -> (v <= 0)%Q) ->
  forall j i, selectBest visited cands j 0%Q i = (0%Q, i).
Proof.
  induction cands as [|[v p] rest IH]; intros Hall j i; simpl; [reflexivity|].
  assert (Hv : Qltb 0 v = false)
    by (apply Qltb_ge; apply (Hall v p); left; reflexivity).
  rewrite Hv. simpl. apply IH. intros w q Hin. apply (Hall w q). right. exact Hin.
Qed.

Lemma lookLoop_dark (m : Mat) (stepSize radius : Z) (searchMode : SearchMode) :
  (forall p, getCoverage p m radius == 0)%Q ->
  forall (fuel : nat) (st : LookState),
    (maxValue st <= 0)%Q ->
    maxPos (lookLoop m stepSize radius searchMode fuel st)
    = shiftBy (maxPos st) (firstOffset searchMode stepSize) (Z.of_nat fuel).
Proof.
  intros Hdark. induction fuel as [|fuel IH]; intros st Hst.
  - simpl. unfold shiftBy. destruct (maxPos st). simpl. f_equal; lia.
  - cbn [lookLoop]. unfold lookStep.
    rewrite selectBest_nothing.
    + assert (Hge : Qgeb 0 (maxValue st) = true) by (apply Qgeb_ge; exact Hst).
      rewrite Hge.
      destruct (candidate0 m (maxPos st) stepSize radius searchMode) as [Hc _].
      rewrite IH by (simpl; apply Qle_refl). cbn [maxPos]. rewrite Hc.
      unfold shiftBy. cbn [px py]. f_equal; lia.
    + intros v p Hin. apply In_nth_error in Hin as [k Hk].
      apply candidates_value in Hk. rewrite Hk, Hdark. apply Qle_refl.
Qed.

(** X13.  For a radius above 0: when the search window holds no skin at
    all, every iteration is accepted and goes to candidate 0, and
    [lookAround] returns the start moved [maxIterations] times by the first
    offset of the mode (a diagonal for FREE_SEARCH). *)
Theorem lookAround_drifts_without_skin (start : Point) (skinMask : Mat)
    (maxIterations stepSize radius : Z) (searchMode : SearchMode) :
  0 < radius ->
  let space := getSearchSpace skinMask start None in
  (forall x y, 0 <= x < cols (mat space) -> 0 <= y < rows (mat space) ->
               at_ (mat space) x y = 0) ->
  lookAround start skinMask maxIterations stepSize radius searchMode
  = shiftBy start (firstOffset searchMode stepSize) (Z.max 0 maxIterations).
Proof.
  intros _ space Hdark. unfold lookAround. fold space.
  rewrite lookLoop_dark.
  - unfold lookInit. fold space. simpl.
    unfold fromSearchSpace, shiftBy. simpl.
    replace (Z.of_nat (Z.to_nat maxIterations)) with (Z.max 0 maxIterations)
      by lia.
    f_equal; lia.
  - intros p. apply getCoverage_dark. exact Hdark.
  - unfold lookInit. fold space. simpl.
    rewrite (getCoverage_dark _ _ _ Hdark). apply Qle_refl.
Qed.

(** ** Hand::getCoverage: bounds *)

Lemma sumTo_le (n : nat) (f g : Z -> Z) :
  (forall i, 0 <= i < Z.of_nat n -> f i <= g i) -> sumTo n f <= sumTo n g.
Proof.
  induction n as [|k IH]; intros H; simpl; [lia|].
  assert (sumTo k f <= sumTo k g) by (apply IH; intros; apply H; lia).
  specialize (H (Z.of_nat k)). lia.
Qed.

Lemma cvSum_le (a b : Mat) :
  rows a = rows b -> cols a = cols b ->
  (forall x y, 0 <= x < cols a -> 0 <= y < rows a -> at_ a x y <= at_ b x y) ->
  cvSum a <= cvSum b.
Proof.
  intros Hr Hc H. unfold cvSum. rewrite <- Hr, <- Hc.
  apply sumTo_le. intros y Hy. apply sumTo_le. intros x Hx. apply H; lia.
Qed.

Lemma land_255_range (v : Z) : 0 <= Z.land v 255 <= 255.
Proof.
  replace (Z.land v 255) with (v mod 256).
  - pose proof (Z.mod_pos_bound v 256 eq_refl). lia.
  - symmetry. apply (Z.land_ones v 8). lia.
Qed.

Lemma land_255_byte (v : Z) : 0 <= v <= 255 -> Z.land v 255 = v.
Proof.
  intros H. rewrite (Z.land_ones v 8 ltac:(lia) : Z.land v 255 = v mod 256).
  apply Z.mod_small. lia.
Qed.

Lemma Qdiv_le_same_denominator (a b d : Q) :
  (0 <= d)%Q -> (a <= b)%Q -> (a / d <= b / d)%Q.
Proof.
  intros Hd Hab. unfold Qdiv. apply Qmult_le_compat_r; [exact Hab|].
  apply Qinv_le_0_compat. exact Hd.
Qed.

Lemma coverage_denominator_nonneg (radius : Z) :
  (0 <= inject_Z (radius * radius) * (31415 # 10000) * 255)%Q.
Proof.
  apply Qmult_le_0_compat; [apply Qmult_le_0_compat|]; try discriminate.
  change 0%Q with (inject_Z 0). rewrite <- Zle_Qle. nia.
Qed.

(** X14.  For a radius above 0 and whatever the mask holds, the coverage at
    a point is at most the coverage the same circle has on a mask of the same
    size whose pixels are all 255, that is the number of mask pixels the
    circle paints divided by [radius * radius * 3.1415]. *)
Theorem getCoverage_at_most_full (pos : Point) (blobMap : Mat) (radius : Z) :
  0 < radius ->
  (getCoverage pos blobMap radius
   <= getCoverage pos (uniformMask (rows blobMap) (cols blobMap) 255) radius)%Q
  /\ (getCoverage pos (uniformMask (rows blobMap) (cols blobMap) 255) radius
      == inject_Z (paintedPixels pos radius (rows blobMap) (cols blobMap))
         / (inject_Z (radius * radius) * (31415 # 10000)))%Q.
Proof.
  intros Hradius. split.
  - unfold getCoverage.
    apply Qdiv_le_same_denominator; [apply coverage_denominator_nonneg|].
    rewrite <- Zle_Qle. apply cvSum_le; try reflexivity.
    intros x y _ _. cbn [at_ bitwise_and circle zeros uniformMask rows cols].
    destruct (cvCircleFilled pos radius x y).
    + pose proof (land_255_range (at_ blobMap x y)).
      change (Z.land 255 255) with 255. lia.
    + rewrite !Z.land_0_r. lia.
  - unfold getCoverage.
    change (rows (uniformMask (rows blobMap) (cols blobMap) 255))
      with (rows blobMap).
    change (cols (uniformMask (rows blobMap) (cols blobMap) 255))
      with (cols blobMap).
    rewrite coverage_uniform_on.
    rewrite inject_Z_mult. field.
    intros H. apply (inject_Z_injective (radius * radius) 0) in H. nia.
Qed.

(** X15.  More skin never lowers the coverage: for two 8-bit masks of the
    same size, the second at least the first at every pixel, the coverage of
    the second is at least that of the first, at every point and every
    radius above 0. *)
Theorem getCoverage_monotone_in_mask (pos : Point) (a b : Mat) (radius : Z) :
  0 < radius ->
  rows a = rows b -> cols a = cols b ->
  (forall x y, 0 <= x < cols a -> 0 <= y < rows a ->
               0 <= at_ a x y <= at_ b x y /\ at_ b x y <= 255) ->
  (getCoverage pos a radius <= getCoverage pos b radius)%Q.
Proof.
  intros _ Hr Hc Hle. unfold getCoverage. rewrite <- Hr, <- Hc.
  apply Qdiv_le_same_denominator; [apply coverage_denominator_nonneg|].
  rewrite <- Zle_Qle. apply cvSum_le; try assumption.
  intros x y Hx Hy. cbn [at_ bitwise_and circle zeros rows cols] in Hx, Hy |- *.
  destruct (Hle x y Hx Hy) as [Hab Hb].
  destruct (cvCircleFilled pos radius x y).
  - rewrite !land_255_byte by lia. lia.
  - rewrite !Z.land_0_r. lia.
Qed.

(** ** Hand::setEstimate: an accepted estimate *)

(** X16.  When the condition is not ONLY_HEAD, or the stored [position.y] is
    neither 0 nor above [faceCoverageThreshold], the estimate is accepted:
    it becomes [blobEstimate], [estimateUpdated] is set, [blobIndex] advances
    with [getNextIndex] and, inside the buffer, the slot it then points at
    holds the blob; the blob history keeps its length, and the position and
    its history are not touched. *)
Theorem setEstimate_accepted (h : Hand) (estimate : Point)
    (blob : BlobInformation) (ignoreIntersection : bool) (condition : Condition) :
  condition <> ONLY_HEAD
  \/ (py (position h) <> 0
      /\ (inject_Z (py (position h)) <= faceCoverageThreshold h)%Q) ->
  let h' := setEstimate h estimate blob ignoreIntersection condition in
  blobEstimate h' = estimate
  /\ estimateUpdated h' = true
  /\ blobIndex h' = getNextIndex h (blobIndex h)
  /\ length (blobHistory h') = length (blobHistory h)
  /\ (0 <= blobIndex h' < Z.of_nat (length (blobHistory h)) ->
      vec_get blob (blobHistory h') (blobIndex h') = blob)
  /\ (forall d i, i <> blobIndex h' ->
        vec_get d (blobHistory h') i = vec_get d (blobHistory h) i)
  /\ position h' = position h
  /\ positionHistory h' = positionHistory h
  /\ positionIndex h' = positionIndex h.
Proof.
  intros Hacc h'. subst h'. unfold setEstimate.
  assert (Hgate : condition = ONLY_HEAD ->
            (py (position h) =? 0)
            || Qgtb (inject_Z (py (position h))) (faceCoverageThreshold h)
            = false).
  { intros ->. destruct Hacc as [H|[H1 H2]]; [congruence|].
    apply orb_false_iff. split.
    - apply Z.eqb_neq. exact H1.
    - apply Qgtb_le. exact H2. }
  destruct ((match type blob with HIGH => true | _ => false end)
            || ignoreIntersection);
    (destruct condition;
     [ change (position (set_ignoreIntersect h true)) with (position h);
       change (faceCoverageThreshold (set_ignoreIntersect h true))
         with (faceCoverageThreshold h);
       rewrite (Hgate eq_refl) | ]);
    cbv zeta;
    cbn [set_estimateUpdated set_blobHistory set_blobIndex set_blobEstimate
         set_ignoreIntersect blobEstimate estimateUpdated blobIndex
         blobHistory position positionHistory positionIndex historySize];
    unfold getNextIndex;
    cbn [set_estimateUpdated set_blobHistory set_blobIndex set_blobEstimate
         set_ignoreIntersect blobEstimate estimateUpdated blobIndex
         blobHistory position positionHistory positionIndex historySize];
    (repeat split;
     [ apply vec_set_length
     | intros Hr; apply vec_get_set_eq; exact Hr
     | intros d i Hi; apply vec_get_set_ne; congruence ]).
Qed.

(** ** Hand::handleIntersection: what it leaves alone *)

(** X17.  [handleIntersection] may move the position and set the two
    intersection flags, and nothing else: in particular the moved position is
    not written to the position history, whose newest slot keeps the
    position [solve] stored. *)
Theorem handleIntersection_frame (h : Hand) (other : Point) (skinMask : Mat) :
  let h' := handleIntersection h other skinMask in
  positionHistory h' = positionHistory h
  /\ positionIndex h' = positionIndex h
  /\ estimateUpdated h' = estimateUpdated h
  /\ blobEstimate h' = blobEstimate h
  /\ blobHistory h' = blobHistory h
  /\ blobIndex h' = blobIndex h
  /\ leftHand h' = leftHand h
  /\ historySize h' = historySize h
  /\ cmInPixels h' = cmInPixels h.
Proof.
  clear getDistance.
  intros h'. subst h'. unfold handleIntersection.
  destruct (negb _ && negb _ && negb _ && negb _); [|repeat split].
  cbv zeta.
  destruct (clampedRootLt _ _); [|destruct (clampedRootLt _ _)];
    unfold improveByCoverage; simpl;
    destruct (ignoreIntersect h); simpl; repeat split.
Qed.

(** ** Hand::improveUsingHistory: the smoothed position stays in the frame *)





(** ** Hand::getPredictedPosition: uniform motion *)

(** X19.  For a hand whose last two displacements are equal (uniform motion,
    or standing still) the two extrapolations are the same point, the last
    position plus that displacement, and [getPredictedPosition] returns it
    exactly when its quality exceeds 0.2, and the sentinel otherwise. *)
Theorem getPredictedPosition_uniform_motion (h : Hand) (skinMask : Mat) :
  let p1 := historySlot h 0 in
  let p2 := historySlot h 1 in
  let p3 := historySlot h 2 in
  px p1 - px p2 = px p2 - px p3 ->
  py p1 - py p2 = py p2 - py p3 ->
  let next := mkPoint (px p1 + (px p1 - px p2)) (py p1 + (py p1 - py p2)) in
  getPredictedPosition h skinMask
  = if Qgtb (fst (getPointQuality h next skinMask 0)) (2 # 10)
    then next else mkPoint 0 0.
Proof.
  intros p1 p2 p3 Hdx Hdy next.
  rewrite getPredictedPosition_gate. cbv zeta. fold p1 p2 p3.
  rewrite <- Hdx, <- Hdy.
  replace (px p1 - px p2 + (px p1 - px p2)) with ((px p1 - px p2) * 2) by lia.
  replace (py p1 - py p2 + (py p1 - py p2)) with ((py p1 - py p2) * 2) by lia.
  rewrite !Z.quot_mul by lia. fold next.
  destruct (Qgtb (fst (getPointQuality h next skinMask 0)) (2 # 10));
    [|reflexivity].
  destruct (Qgtb _ _); reflexivity.
Qed.

End Engine.

(** ** Closed examples *)

(** C1.  The hand moved (20,20), (30,20), (50,20); skin fills the columns up
    to 66.  The linear extrapolation (70,20) has quality about 0.10, the
    velocity-averaged one (65,20) about 0.70: the preferred candidate is the
    second and its quality exceeds 0.2, yet [getPredictedPosition] returns
    the sentinel, because the gate reads the quality of the first.  (Both
    discs lie inside the mask and inside their windows.) *)
Theorem getPredictedPosition_drops_better_candidate :
  let m := leftSkinMask 40 100 66 in
  let h := acceleratingHand in
  let linear := mkPoint 70 20 in
  let velocity := mkPoint 65 20 in
  let q := fst (getPointQuality discFilled cropWindow h linear m 0) in
  let qv := fst (getPointQuality discFilled cropWindow h velocity m 0) in
  historySlot h 0 = mkPoint 50 20
  /\ historySlot h 1 = mkPoint 30 20
  /\ historySlot h 2 = mkPoint 20 20
  /\ (q < qv)%Q /\ (2 # 10 < qv)%Q /\ (q <= 2 # 10)%Q
  /\ getPredictedPosition discFilled cropWindow h m = mkPoint 0 0.
Proof. vm_compute. repeat split; intros H; discriminate H. Qed.

Lemma lookAround_bounded_fresh_moves_witness :
  4 <> 0
  /\ (lookIterations discFilled
        (mat (cropWindow (uniformMask 30 30 255) (mkPoint 15 15) None))
        4 5 FREE_SEARCH (Z.to_nat 10)
        (lookInit discFilled cropWindow (mkPoint 15 15) (uniformMask 30 30 255) 5)
      <= Z.to_nat 10)%nat.
Proof.
  split; [lia|].
  exact (proj1 (lookAround_bounded_fresh_moves discFilled cropWindow
                  (mkPoint 15 15) (uniformMask 30 30 255) 10 4 5 FREE_SEARCH
                  ltac:(lia))).
Defined.

(** C3, as stated, fails for a step size of 0: on a mask without skin the
    first iteration "moves" to candidate 0, which is the current point, and
    records it; the second iteration does the same, onto the recorded key. *)
Lemma lookAround_zero_step_revisits :
  let mask := uniformMask 20 20 0 in
  let start := mkPoint 10 10 in
  let space := cropWindow mask start None in
  let st0 := lookInit discFilled cropWindow start mask 5 in
  let trace := lookTrace discFilled (mat space) 0 5 FREE_SEARCH (Z.to_nat 2) st0 in
  (exists st1 st2, trace = [st1; st2] /\ key (maxPos st2) ∈ visitedKeys st1)
  /\ ~ Chain (fun st st' =>
                lookStep discFilled (mat space) 0 5 FREE_SEARCH st = Some st'
                /\ (key (maxPos st') ∉ visitedKeys st))
         st0 trace.
Proof.
  intros mask start space st0 trace.
  assert (H : exists st1 st2,
             trace = [st1; st2] /\ key (maxPos st2) ∈ visitedKeys st1).
  { eexists. eexists. split; [vm_compute; reflexivity|].
    match goal with
    | |- ?k ∈ ?V => apply (bool_decide_unpack (k ∈ V))
    end.
    vm_compute. exact I. }
  split; [exact H|].
  destruct H as (st1 & st2 & -> & Hin). intros Hc.
  inversion Hc as [|? ? ? _ Hc']; subst.
  inversion Hc' as [|? ? ? [_ Hfresh] _]; subst.
  exact (Hfresh Hin).
Qed.

Lemma improveByAreaSearch_spec_witness :
  let h := restingHand (mkPoint 100 100) true in
  let mask := uniformMask 200 200 255 in
  (estimateUpdated h = false
   /\ (2 # 10 < fst (getPointQuality discFilled cropWindow h (mkPoint 100 100) mask 0))%Q)
  /\ snd (improveByAreaSearch discFilled cropWindow pixelDistance h mask
            (mkPoint 100 100)) = true.
Proof.
  intros h mask.
  assert (Hs : estimateUpdated h = false
               /\ (2 # 10 < fst (getPointQuality discFilled cropWindow h
                                   (mkPoint 100 100) mask 0))%Q).
  { split; [reflexivity|]. vm_compute. reflexivity. }
  split; [exact Hs|].
  apply (improveByAreaSearch_spec discFilled cropWindow pixelDistance h mask
           (mkPoint 100 100)).
  destruct Hs as [H1 H2]. split; [right; exact H1|exact H2].
Defined.

(** C5, as stated, fails: a rejected estimate from a HIGH blob still sets
    [ignoreIntersect], so the call does mutate the hand. *)
Lemma setEstimate_rejected_sets_flag :
  let blob := mkBlob origin origin origin origin HIGH in
  let h' := setEstimate freshHand (mkPoint 5 5) blob false ONLY_HEAD in
  py (position freshHand) = 0
  /\ estimateUpdated h' = false
  /\ ignoreIntersect freshHand = false
  /\ ignoreIntersect h' = true
  /\ h' <> freshHand.
Proof.
  vm_compute. repeat split; try reflexivity. intros H. discriminate H.
Qed.

Lemma setEstimate_only_head_rejected_witness :
  let blob := mkBlob origin origin origin origin HIGH in
  let h' := setEstimate freshHand (mkPoint 5 5) blob false ONLY_HEAD in
  py (position freshHand) = 0
  /\ estimateUpdated h' = estimateUpdated freshHand
  /\ position h' = position freshHand.
Proof.
  intros blob h'.
  assert (H0 : py (position freshHand) = 0) by reflexivity.
  split; [exact H0|].
  destruct (setEstimate_only_head_rejected freshHand (mkPoint 5 5) blob false
              (or_introl H0)) as (_ & H1 & H2 & _).
  split; [exact H1|exact H2].
Defined.

(** C7, as stated, fails: a position on the frame edge, such as (0,5), is not
    the sentinel, the other hand one pixel away is well inside 8 cm, and yet
    [intersecting] is not set and no search runs; and a stale [intersecting]
    is not reset there although [ignoreIntersect] is set. *)
Lemma handleIntersection_ignores_edge_position :
  let mask := uniformMask 40 40 255 in
  let h := restingHand (mkPoint 0 5) true in
  let other := mkPoint 0 6 in
  let stale := set_ignoreIntersect (set_intersecting h true) true in
  position h <> origin /\ other <> origin
  /\ (px (position h) - px other) * (px (position h) - px other)
     + (py (position h) - py other) * (py (position h) - py other)
     < truncQ (8 * cmInPixels h) * truncQ (8 * cmInPixels h)
  /\ intersecting (handleIntersection discFilled cropWindow h other mask) = false
  /\ handleIntersection discFilled cropWindow h other mask = h
  /\ intersecting (handleIntersection discFilled cropWindow stale other mask)
     = true.
Proof.
  vm_compute. repeat split; try reflexivity; intros H; discriminate H.
Qed.

Lemma handleIntersection_spec_witness :
  let mask := uniformMask 400 400 255 in
  let h := restingHand (mkPoint 200 200) true in
  let other := mkPoint 200 200 in
  (px (position h) <> 0 /\ py (position h) <> 0
   /\ px other <> 0 /\ py other <> 0)
  /\ intersecting (handleIntersection discFilled cropWindow h other mask) = true.
Proof.
  intros mask h other.
  assert (Hg : px (position h) <> 0 /\ py (position h) <> 0
               /\ px other <> 0 /\ py other <> 0)
    by (repeat split; discriminate).
  split; [exact Hg|].
  destruct (handleIntersection_spec discFilled cropWindow h other mask)
    as [Hspec _].
  destruct (Hspec Hg) as [Hi _]. apply Hi.
  split; [split; reflexivity | reflexivity].
Defined.

(** C8, as stated, fails: when a position is the sentinel the call returns
    before the flag is cleared. *)
Lemma handleIntersection_keeps_flag :
  let mask := uniformMask 400 400 255 in
  let h := set_ignoreIntersect freshHand true in
  ignoreIntersect h = true
  /\ ignoreIntersect
       (handleIntersection discFilled cropWindow h (mkPoint 200 200) mask) = true.
Proof. vm_compute. split; reflexivity. Qed.

Lemma handleIntersection_clears_flag_witness :
  let mask := uniformMask 400 400 255 in
  let h := set_ignoreIntersect (restingHand (mkPoint 200 200) true) true in
  let other := mkPoint 210 200 in
  (px (position h) <> 0 /\ py (position h) <> 0
   /\ px other <> 0 /\ py other <> 0)
  /\ ignoreIntersect (handleIntersection discFilled cropWindow h other mask)
     = false.
Proof.
  intros mask h other.
  assert (Hg : px (position h) <> 0 /\ py (position h) <> 0
               /\ px other <> 0 /\ py other <> 0)
    by (repeat split; discriminate).
  split; [exact Hg|].
  exact (proj1 (handleIntersection_clears_flag discFilled cropWindow h other mask)
           Hg).
Defined.

(** C9, as stated, fails.  On a mask whose pixels are all 255 the coverage is
    5/3.1415 at radius 1 and 81/78.5375 at radius 5, both above 1; and at the
    only pixel of a 1 x 1 mask, with radius 10, it is 1/314.15. *)
Lemma getCoverage_outside_unit_interval :
  (1 < getCoverage discFilled (mkPoint 1 1) (uniformMask 3 3 255) 1)%Q
  /\ (1 < getCoverage discFilled (mkPoint 50 50) (uniformMask 100 100 255) 5)%Q
  /\ (getCoverage discFilled (mkPoint 0 0) (uniformMask 1 1 255) 10 < 1 # 100)%Q.
Proof. vm_compute. repeat split. Qed.

Lemma solve_skips_uninitialized_witness :
  let mask := uniformMask 100 100 255 in
  let h := edgeEstimateHand in
  let recovered :=
    solveRecover discFilled cropWindow pixelDistance (solveEstimate h) mask in
  (position recovered = mkPoint 0 50
   /\ (px (position recovered) = 0 \/ py (position recovered) = 0))
  /\ positionHistory (solve discFilled cropWindow pixelDistance h mask [] mask)
     = positionHistory h
  /\ estimateUpdated (solve discFilled cropWindow pixelDistance h mask [] mask)
     = false.
Proof.
  intros mask h recovered.
  assert (H0 : px (position recovered) = 0 \/ py (position recovered) = 0)
    by (left; reflexivity).
  split; [split; [reflexivity|exact H0]|].
  destruct (solve_skips_uninitialized discFilled cropWindow pixelDistance
              h mask [] mask H0) as (_ & H1 & _ & H2).
  split; [exact H1|exact H2].
Defined.

(** ** Closed examples for the further properties *)

Lemma history_index_round_trip_witness :
  0 <= 9 < historySize freshHand
  /\ getPreviousIndex freshHand (getNextIndex freshHand 9) = 9.
Proof.
  assert (H : 0 <= 9 < historySize freshHand) by (simpl; lia).
  split; [exact H|]. exact (proj1 (history_index_round_trip freshHand 9 H)).
Defined.

Lemma history_index_in_range_witness :
  0 <= 9 < historySize freshHand
  /\ 0 <= getNextIndex freshHand 9 < historySize freshHand.
Proof.
  assert (H : 0 <= 9 < historySize freshHand) by (simpl; lia).
  split; [exact H|]. exact (proj1 (history_index_in_range freshHand 9 H)).
Defined.

Lemma getSearchModeFromBlobs_no_blob_witness :
  let h := restingHand (mkPoint 100 100) true in
  let blobs := [boxBlob 200 260 50 300 LOW] in
  (forall b, In b blobs -> blobContains h b = false)
  /\ getSearchModeFromBlobs h blobs = FREE_SEARCH.
Proof.
  intros h blobs.
  assert (H : forall b, In b blobs -> blobContains h b = false).
  { intros b [<-|[]]. reflexivity. }
  split; [exact H|]. exact (getSearchModeFromBlobs_no_blob h blobs H).
Defined.

Lemma getSearchModeFromBlobs_first_match_witness :
  let h := restingHand (mkPoint 100 100) true in
  let far := boxBlob 200 260 50 300 LOW in
  let head := boxBlob 80 120 40 110 HIGH in
  let torso := boxBlob 60 140 90 300 LOW in
  blobContains h head = true
  /\ getSearchModeFromBlobs h ([far] ++ head :: [torso])
     = getSearchModeFromBlobs h [head].
Proof.
  intros h far head torso.
  assert (Hb : blobContains h head = true) by reflexivity.
  assert (Hf : forall c, In c [far] -> blobContains h c = false).
  { intros c [<-|[]]. reflexivity. }
  split; [exact Hb|].
  exact (proj1 (getSearchModeFromBlobs_first_match h [far] [torso] head Hf Hb)).
Defined.

Lemma solve_index_in_range_witness :
  let h := restingHand (mkPoint 100 100) true in
  let mask := uniformMask 200 200 255 in
  0 <= positionIndex h < historySize h
  /\ 0 <= positionIndex (solve discFilled cropWindow pixelDistance h mask [] mask)
     < historySize h.
Proof.
  intros h mask.
  assert (H : 0 <= positionIndex h < historySize h) by (simpl; lia).
  split; [exact H|].
  exact (proj2 (solve_index_in_range discFilled cropWindow pixelDistance
                  h mask [] mask H)).
Defined.

Lemma solve_newest_slot_witness :
  let h := firstEstimateHand in
  let mask := uniformMask 200 200 255 in
  let recovered :=
    solveRecover discFilled cropWindow pixelDistance (solveEstimate h) mask in
  let h' := solve discFilled cropWindow pixelDistance h mask [] mask in
  (position recovered = mkPoint 100 100
   /\ Z.of_nat (length (positionHistory h)) = historySize h)
  /\ positionIndex h' = 1
  /\ vec_get origin (positionHistory h') (positionIndex h') = position h'.
Proof.
  intros h mask recovered h'.
  assert (Hr : position recovered = mkPoint 100 100) by reflexivity.
  assert (Hl : Z.of_nat (length (positionHistory h)) = historySize h)
    by reflexivity.
  split; [split; [exact Hr|exact Hl]|].
  assert (Hx : px (position recovered) <> 0) by (rewrite Hr; discriminate).
  assert (Hy : py (position recovered) <> 0) by (rewrite Hr; discriminate).
  destruct (solve_newest_slot discFilled cropWindow pixelDistance h mask [] mask
              ltac:(simpl; lia) Hl ltac:(simpl; lia) Hx Hy) as (H1 & H2 & _).
  split; [exact H1|exact H2].
Defined.

Lemma solve_lost_hand_steady_witness :
  let mask := uniformMask 200 200 255 in
  (estimateUpdated freshHand = false /\ px (position freshHand) = 0)
  /\ solve discFilled cropWindow pixelDistance freshHand mask [] mask = freshHand.
Proof.
  intros mask. split; [split; reflexivity|].
  apply solve_lost_hand_steady; [reflexivity | left; reflexivity
                                | left; reflexivity].
Defined.

Lemma lookAround_keeps_bias_witness :
  let mask := uniformMask 60 60 255 in
  0 <= 3
  /\ px (lookAround discFilled cropWindow (mkPoint 30 30) mask 20 3 5 SEARCH_RIGHT)
     <= 30.
Proof.
  intros mask. split; [lia|].
  exact (lookAround_keeps_bias discFilled cropWindow (mkPoint 30 30) mask
           20 3 5 SEARCH_RIGHT ltac:(lia)).
Defined.

Lemma lookAround_drifts_without_skin_witness :
  let mask := uniformMask 60 60 0 in
  let start := mkPoint 30 30 in
  let space := cropWindow mask start None in
  0 < 5
  /\ (forall x y, 0 <= x < cols (mat space) -> 0 <= y < rows (mat space) ->
               at_ (mat space) x y = 0)
  /\ lookAround discFilled cropWindow start mask 5 3 5 FREE_SEARCH
     = mkPoint 45 45.
Proof.
  intros mask start space.
  assert (H : forall x y, 0 <= x < cols (mat space) ->
                0 <= y < rows (mat space) -> at_ (mat space) x y = 0)
    by (intros x y _ _; reflexivity).
  split; [lia|]. split; [exact H|].
  exact (lookAround_drifts_without_skin discFilled cropWindow start mask
           5 3 5 FREE_SEARCH ltac:(lia) H).
Defined.

Lemma getCoverage_monotone_in_mask_witness :
  let a := leftSkinMask 20 20 9 in
  let b := uniformMask 20 20 255 in
  0 < 5
  /\ (forall x y, 0 <= x < cols a -> 0 <= y < rows a ->
               0 <= at_ a x y <= at_ b x y /\ at_ b x y <= 255)
  /\ (getCoverage discFilled (mkPoint 10 10) a 5
      <= getCoverage discFilled (mkPoint 10 10) b 5)%Q.
Proof.
  intros a b.
  assert (H : forall x y, 0 <= x < cols a -> 0 <= y < rows a ->
                0 <= at_ a x y <= at_ b x y /\ at_ b x y <= 255).
  { intros x y _ _. simpl. destruct (x <=? 9); lia. }
  split; [lia|]. split; [exact H|].
  exact (getCoverage_monotone_in_mask discFilled (mkPoint 10 10) a b 5
           ltac:(lia) eq_refl eq_refl H).
Defined.

Lemma setEstimate_accepted_witness :
  let blob := boxBlob 80 120 200 260 LOW in
  let h' := setEstimate freshHand (mkPoint 100 230) blob false CONDITION_OTHER in
  CONDITION_OTHER <> ONLY_HEAD
  /\ blobEstimate h' = mkPoint 100 230
  /\ estimateUpdated h' = true
  /\ blobIndex h' = 1.
Proof.
  intros blob h'.
  assert (H : CONDITION_OTHER <> ONLY_HEAD) by discriminate.
  split; [exact H|].
  destruct (setEstimate_accepted freshHand (mkPoint 100 230) blob false
              CONDITION_OTHER (or_introl H)) as (H1 & H2 & H3 & _).
  split; [exact H1|]. split; [exact H2|exact H3].
Defined.


Lemma getPredictedPosition_uniform_motion_witness :
  let h := restingHand (mkPoint 100 100) true in
  let mask := uniformMask 200 200 255 in
  px (historySlot h 0) - px (historySlot h 1)
  = px (historySlot h 1) - px (historySlot h 2)
  /\ getPredictedPosition discFilled cropWindow h mask
     = if Qgtb (fst (getPointQuality discFilled cropWindow h (mkPoint 100 100)
                       mask 0)) (2 # 10)
       then mkPoint 100 100 else mkPoint 0 0.
Proof.
  intros h mask.
  assert (Hx : px (historySlot h 0) - px (historySlot h 1)
               = px (historySlot h 1) - px (historySlot h 2)) by reflexivity.
  split; [exact Hx|].
  exact (getPredictedPosition_uniform_motion discFilled cropWindow h mask
           Hx eq_refl).
Defined.

Lemma getCoverage_spec_witness :
  0 < 5
  /\ (getCoverage discFilled (mkPoint 50 50) (uniformMask 100 100 255) 5
      == inject_Z (paintedPixels discFilled (mkPoint 50 50) 5 100 100)
         / (inject_Z (5 * 5) * (31415 # 10000)))%Q.
Proof.
  split; [lia|].
  destruct (getCoverage_spec discFilled (mkPoint 50 50) (uniformMask 100 100 255)
              5 ltac:(lia)) as (_ & _ & _ & H).
  exact (proj1 (H 100 100 ltac:(lia) ltac:(lia))).
Defined.

Lemma getCoverage_at_most_full_witness :
  let mask := leftSkinMask 20 20 9 in
  0 < 5
  /\ (getCoverage discFilled (mkPoint 10 10) mask 5
      <= getCoverage discFilled (mkPoint 10 10) (uniformMask 20 20 255) 5)%Q.
Proof.
  intros mask. split; [lia|].
  exact (proj1 (getCoverage_at_most_full discFilled (mkPoint 10 10) mask 5
                  ltac:(lia))).
Defined.

(** ** binary64 and the blend of [improveUsingHistory] *)

(** Powers of two over the rationals. *)
Lemma two_power_pos (z : Z) : (0 < 2 ^ z)%Q.
Proof. apply Qpower_0_lt. reflexivity. Qed.

Lemma two_power_quotient (a b : Z) :
  0 <= a -> 0 <= b ->
  (2 ^ (a - b) == inject_Z (2 ^ a) / inject_Z (2 ^ b))%Q.
Proof.
  intros Ha Hb. rewrite Qpower_minus by discriminate.
  rewrite !Zpower_Qpower by assumption. reflexivity.
Qed.

Lemma two_power_succ (z : Z) : (2 ^ (z + 1) == 2 * 2 ^ z)%Q.
Proof. rewrite Qpower_plus by discriminate. simpl. ring. Qed.

(** [Qlog2] is the binary exponent. *)
Lemma Qlog2_spec (q : Q) :
  (0 < q)%Q -> (2 ^ Qlog2 q <= q)%Q /\ (q < 2 ^ (Qlog2 q + 1))%Q.
Proof.
  intros Hq. destruct q as [n d].
  assert (Hn : 0 < n) by (unfold Qlt in Hq; simpl in Hq; lia).
  unfold Qlog2. cbn [Qnum Qden].
  set (kn := Z.log2 n). set (kd := Z.log2 (Zpos d)).
  assert (Hkn : 0 <= kn) by apply Z.log2_nonneg.
  assert (Hkd : 0 <= kd) by apply Z.log2_nonneg.
  destruct (Z.log2_spec n Hn) as [Hn1 Hn2]. fold kn in Hn1, Hn2.
  destruct (Z.log2_spec (Zpos d) ltac:(lia)) as [Hd1 Hd2]. fold kd in Hd1, Hd2.
  rewrite <- Z.add_1_r in Hn2, Hd2.
  rewrite Z.pow_add_r in Hn2, Hd2 by lia.
  change (2 ^ 1) with 2 in Hn2, Hd2.
  assert (Pn : 0 < 2 ^ kn) by (apply Z.pow_pos_nonneg; lia).
  assert (Pd : 0 < 2 ^ kd) by (apply Z.pow_pos_nonneg; lia).
  destruct (Qle_bool (2 ^ (kn - kd)) (n # d)) eqn:E.
  - apply Qle_bool_iff in E. split; [exact E|].
    rewrite two_power_succ, two_power_quotient by assumption.
    setoid_replace (2 * (inject_Z (2 ^ kn) / inject_Z (2 ^ kd)))%Q
      with (inject_Z (2 * 2 ^ kn) / inject_Z (2 ^ kd))%Q
      using relation Qeq by (rewrite inject_Z_mult; unfold Qdiv; ring).
    apply Qlt_shift_div_l.
    + change 0%Q with (inject_Z 0). rewrite <- Zlt_Qlt. exact Pd.
    + set (A := 2 ^ kn) in *. set (B := 2 ^ kd) in *. clearbody A B.
      unfold Qlt, Qmult, inject_Z. cbn [Qnum Qden].
      rewrite ?Pos.mul_1_r, ?Z.mul_1_r. nia.
  - assert (E' : (n # d < 2 ^ (kn - kd))%Q).
    { apply Qnot_le_lt. intros H. apply Qle_bool_iff in H. congruence. }
    split.
    + replace (kn - kd - 1) with (kn - (kd + 1)) by lia.
      rewrite two_power_quotient by lia.
      rewrite (Z.pow_add_r 2 kd 1) by lia. change (2 ^ 1) with 2.
      apply Qle_shift_div_r.
      * change 0%Q with (inject_Z 0). rewrite <- Zlt_Qlt. lia.
      * set (A := 2 ^ kn) in *. set (B := 2 ^ kd) in *. clearbody A B.
        unfold Qle, Qmult, inject_Z. cbn [Qnum Qden].
        rewrite ?Pos.mul_1_r, ?Z.mul_1_r. nia.
    + replace (kn - kd - 1 + 1) with (kn - kd) by lia. exact E'.
Qed.

(** Rounding to a whole number moves a value by at most one half. *)
Lemma roundHalfEven_near (x : Q) :
  (inject_Z (roundHalfEven x) - x <= 1 # 2)%Q
  /\ (x - inject_Z (roundHalfEven x) <= 1 # 2)%Q.
Proof.
  unfold roundHalfEven.
  pose proof (Qfloor_le x) as H1. pose proof (Qlt_floor x) as H2.
  rewrite inject_Z_plus in H2. change (inject_Z 1) with 1%Q in H2.
  destruct (Qcompare_spec (x - inject_Z (Qfloor x)) (1 # 2)) as [H|H|H].
  - destruct (Z.even (Qfloor x)); rewrite ?inject_Z_plus;
      change (inject_Z 1) with 1%Q; split; lra.
  - split; lra.
  - rewrite inject_Z_plus. change (inject_Z 1) with 1%Q. split; lra.
Qed.

(** [round64 q] has 53 significant bits and is within half a unit in the
    last place of [q]. *)
Lemma round64_nearest (q : Q) :
  (0 < q)%Q ->
  let s := 52 - Qlog2 q in
  (2 ^ 52 <= q * 2 ^ s)%Q /\ (q * 2 ^ s < 2 ^ 53)%Q
  /\ (round64 q - q <= (1 # 2) / 2 ^ s)%Q
  /\ (q - round64 q <= (1 # 2) / 2 ^ s)%Q.
Proof.
  intros Hq s. destruct (Qlog2_spec q Hq) as [L1 L2].
  pose proof (two_power_pos s) as Ps.
  pose proof (two_power_pos (Qlog2 q)) as Pl.
  assert (E52 : (2 ^ 52 == 2 ^ Qlog2 q * 2 ^ s)%Q).
  { rewrite <- Qpower_plus by discriminate. subst s.
    replace (Qlog2 q + (52 - Qlog2 q)) with 52 by lia. reflexivity. }
  assert (E53 : (2 ^ 53 == 2 ^ (Qlog2 q + 1) * 2 ^ s)%Q).
  { rewrite <- Qpower_plus by discriminate. subst s.
    replace (Qlog2 q + 1 + (52 - Qlog2 q)) with 53 by lia. reflexivity. }
  split; [|split].
  - rewrite E52. apply Qmult_le_compat_r; [exact L1|]. apply Qlt_le_weak, Ps.
  - rewrite E53. apply Qmult_lt_compat_r; assumption.
  - unfold round64.
    assert (Hc : (q ?= 0)%Q = Gt) by (apply Qgt_alt; exact Hq).
    rewrite Hc. fold s. rewrite Qred_correct.
    destruct (roundHalfEven_near (q * 2 ^ s)) as [R1 R2].
    set (m := inject_Z (roundHalfEven (q * 2 ^ s))) in *.
    assert (Hne : ~ (2 ^ s == 0)%Q) by (intros H; rewrite H in Ps; discriminate).
    split.
    + setoid_replace (m / 2 ^ s - q)%Q with ((m - q * 2 ^ s) / 2 ^ s)%Q
        using relation Qeq by (field; exact Hne).
      unfold Qdiv. apply Qmult_le_compat_r; [exact R1|].
      apply Qlt_le_weak, Qinv_lt_0_compat, Ps.
    + setoid_replace (q - m / 2 ^ s)%Q with ((q * 2 ^ s - m) / 2 ^ s)%Q
        using relation Qeq by (field; exact Hne).
      unfold Qdiv. apply Qmult_le_compat_r; [exact R2|].
      apply Qlt_le_weak, Qinv_lt_0_compat, Ps.
Qed.

Lemma round64_zero (q : Q) : (q == 0)%Q -> round64 q = 0%Q.
Proof.
  intros H. unfold round64.
  assert (Hc : (q ?= 0)%Q = Eq) by (apply Qeq_alt; exact H).
  rewrite Hc. reflexivity.
Qed.

(** The relative error of one rounding. *)
Lemma round64_relative (q : Q) :
  (0 <= q)%Q ->
  (q * (1 - unitRoundoff) <= round64 q)%Q
  /\ (round64 q <= q * (1 + unitRoundoff))%Q.
Proof.
  intros Hq. destruct (Qle_lt_or_eq _ _ Hq) as [Hpos|Hz].
  - destruct (round64_nearest q Hpos) as (N1 & _ & R1 & R2).
    set (s := 52 - Qlog2 q) in *.
    pose proof (two_power_pos s) as Ps.
    assert (Hu : ((1 # 2) / 2 ^ s <= q * unitRoundoff)%Q).
    { apply Qle_shift_div_r; [exact Ps|].
      change (2 ^ 52)%Q with (4503599627370496 # 1)%Q in N1.
      unfold unitRoundoff.
      setoid_replace (q * (1 # 9007199254740992) * 2 ^ s)%Q
        with ((q * 2 ^ s) * (1 # 9007199254740992))%Q using relation Qeq by ring.
      lra. }
    split; lra.
  - rewrite (round64_zero q) by (symmetry; exact Hz). rewrite <- Hz.
    split; unfold unitRoundoff; lra.
Qed.

(** The calculus of [within]. *)
Lemma low_power_pos (k : nat) : (0 < (1 - unitRoundoff) ^ Z.of_nat k)%Q.
Proof. apply Qpower_0_lt. reflexivity. Qed.

Lemma high_power_pos (k : nat) : (0 < (1 + unitRoundoff) ^ Z.of_nat k)%Q.
Proof. apply Qpower_0_lt. reflexivity. Qed.

Lemma power_succ (c : Q) (k : nat) :
  ~ (c == 0)%Q -> (c ^ Z.of_nat (S k) == c ^ Z.of_nat k * c)%Q.
Proof.
  intros Hc. rewrite Nat2Z.inj_succ, <- Z.add_1_r.
  rewrite Qpower_plus by exact Hc. simpl. reflexivity.
Qed.

Lemma power_add (c : Q) (j k : nat) :
  ~ (c == 0)%Q ->
  (c ^ Z.of_nat (j + k) == c ^ Z.of_nat j * c ^ Z.of_nat k)%Q.
Proof.
  intros Hc. rewrite Nat2Z.inj_add. apply Qpower_plus. exact Hc.
Qed.

Lemma within_exact (x : Q) : within 0 x x.
Proof. unfold within. simpl. split; lra. Qed.

Lemma within_nonneg (k : nat) (x' x : Q) :
  (0 <= x)%Q -> within k x' x -> (0 <= x')%Q.
Proof.
  intros Hx [H _]. eapply Qle_trans; [|exact H].
  apply Qmult_le_0_compat; [exact Hx|]. apply Qlt_le_weak, low_power_pos.
Qed.

Lemma within_round (k : nat) (x' x : Q) :
  (0 <= x)%Q -> within k x' x -> within (S k) (round64 x') x.
Proof.
  intros Hx Hw. pose proof (within_nonneg k x' x Hx Hw) as Hx'.
  destruct Hw as [H1 H2].
  destruct (round64_relative x' Hx') as [R1 R2].
  unfold within. rewrite !power_succ by discriminate.
  pose proof (low_power_pos k) as Pl. pose proof (high_power_pos k) as Ph.
  split.
  - eapply Qle_trans; [|exact R1].
    rewrite Qmult_assoc. apply Qmult_le_compat_r; [exact H1|]. discriminate.
  - eapply Qle_trans; [exact R2|].
    rewrite Qmult_assoc. apply Qmult_le_compat_r; [exact H2|]. discriminate.
Qed.

Lemma within_mul (j k : nat) (x' x y' y : Q) :
  (0 <= x)%Q -> (0 <= y)%Q ->
  within j x' x -> within k y' y -> within (j + k) (x' * y') (x * y).
Proof.
  intros Hx Hy Hwx Hwy.
  pose proof (within_nonneg j x' x Hx Hwx) as Hx'.
  pose proof (within_nonneg k y' y Hy Hwy) as Hy'.
  destruct Hwx as [X1 X2], Hwy as [Y1 Y2].
  pose proof (low_power_pos j) as Plj. pose proof (low_power_pos k) as Plk.
  unfold within. rewrite !power_add by discriminate. split.
  - setoid_replace (x * y * ((1 - unitRoundoff) ^ Z.of_nat j
                             * (1 - unitRoundoff) ^ Z.of_nat k))%Q
      with ((x * (1 - unitRoundoff) ^ Z.of_nat j)
            * (y * (1 - unitRoundoff) ^ Z.of_nat k))%Q using relation Qeq by ring.
    apply Qmult_le_compat_nonneg; split; try assumption;
      apply Qmult_le_0_compat; try assumption; apply Qlt_le_weak; assumption.
  - setoid_replace (x * y * ((1 + unitRoundoff) ^ Z.of_nat j
                             * (1 + unitRoundoff) ^ Z.of_nat k))%Q
      with ((x * (1 + unitRoundoff) ^ Z.of_nat j)
            * (y * (1 + unitRoundoff) ^ Z.of_nat k))%Q using relation Qeq by ring.
    apply Qmult_le_compat_nonneg; split; assumption.
Qed.

Lemma within_add (k : nat) (x' x y' y : Q) :
  within k x' x -> within k y' y -> within k (x' + y') (x + y).
Proof.
  intros [X1 X2] [Y1 Y2]. unfold within.
  rewrite !Qmult_plus_distr_l. split; lra.
Qed.

Lemma within_more (k : nat) (x' x : Q) :
  (0 <= x)%Q -> within k x' x -> within (S k) x' x.
Proof.
  intros Hx [H1 H2]. unfold within. rewrite !power_succ by discriminate.
  pose proof (low_power_pos k) as Pl. pose proof (high_power_pos k) as Ph.
  assert (A1 : (0 <= x * (1 - unitRoundoff) ^ Z.of_nat k)%Q)
    by (apply Qmult_le_0_compat; [exact Hx|apply Qlt_le_weak; exact Pl]).
  assert (A2 : (0 <= x * (1 + unitRoundoff) ^ Z.of_nat k)%Q)
    by (apply Qmult_le_0_compat; [exact Hx|apply Qlt_le_weak; exact Ph]).
  rewrite !Qmult_assoc.
  set (L := (x * (1 - unitRoundoff) ^ Z.of_nat k)%Q) in *.
  set (H := (x * (1 + unitRoundoff) ^ Z.of_nat k)%Q) in *.
  unfold unitRoundoff. split; nra.
Qed.

Lemma within_eq (k : nat) (x' x y : Q) :
  (x == y)%Q -> within k x' x -> within k x' y.
Proof. intros E [H1 H2]. unfold within. rewrite <- E. split; assumption. Qed.

(** Truncation of a non-negative value is its floor. *)
Lemma truncQ_floor (q : Q) :
  (0 <= q)%Q -> (inject_Z (truncQ q) <= q)%Q /\ (q < inject_Z (truncQ q) + 1)%Q.
Proof.
  destruct q as [n d]. unfold Qle, Qlt, Qplus, truncQ, inject_Z.
  cbn [Qnum Qden]. intros H0.
  assert (Hn : 0 <= n) by lia.
  rewrite Z.quot_div_nonneg by lia.
  pose proof (Z.div_mod n (Zpos d) ltac:(lia)) as E.
  pose proof (Z.mod_pos_bound n (Zpos d) ltac:(lia)) as B.
  split; rewrite ?Pos.mul_1_r, ?Z.mul_1_r; nia.
Qed.

(** Four roundings move a value by less than one part in 2^50. *)
Lemma four_roundings :
  (1 - (1 # 1125899906842624) <= (1 - unitRoundoff) ^ Z.of_nat 4)%Q
  /\ ((1 + unitRoundoff) ^ Z.of_nat 4 <= 1 + (1 # 1125899906842624))%Q.
Proof. split; unfold Qle; vm_compute; discriminate. Qed.

(** The blend on doubles against the blend over the rationals, for weights
    of [A] and [100 - A] percent, a sum [S] of five [int] coordinates and an
    [int] coordinate [x], none of them negative: the stored coordinate never
    exceeds the rational value of the blend and is at most one pixel below
    it. *)
Lemma blend64_within_one_pixel (A S x : Z) (a b sum : Q) :
  0 <= A <= 100 ->
  (a == inject_Z A / 100)%Q -> (b == inject_Z (100 - A) / 100)%Q ->
  0 <= S <= 5 * 2147483647 -> 0 <= x <= 2147483647 ->
  (sum == inject_Z S)%Q ->
  let exact := (a * (inject_Z S / 5) + b * inject_Z x)%Q in
  (0 <= exact)%Q
  /\ (exact - 1 <= inject_Z (blend64 a (fdiv sum 5) b x))%Q
  /\ (inject_Z (blend64 a (fdiv sum 5) b x) <= exact)%Q.
Proof.
  intros HA Ea Eb HS Hx Esum exact.
  assert (Ha0 : (0 <= a)%Q).
  { rewrite Ea. apply Qle_shift_div_l; [reflexivity|].
    rewrite Qmult_0_l. unfold Qle, inject_Z. cbn [Qnum Qden]. lia. }
  assert (Hb0 : (0 <= b)%Q).
  { rewrite Eb. apply Qle_shift_div_l; [reflexivity|].
    rewrite Qmult_0_l. unfold Qle, inject_Z. cbn [Qnum Qden]. lia. }
  assert (HS0 : (0 <= inject_Z S)%Q) by (unfold Qle, inject_Z; cbn [Qnum Qden]; lia).
  assert (Hx0 : (0 <= inject_Z x)%Q) by (unfold Qle, inject_Z; cbn [Qnum Qden]; lia).
  assert (Havg0 : (0 <= inject_Z S / 5)%Q).
  { apply Qle_shift_div_l; [reflexivity|]. lra. }
  assert (Wa : within 1 (round64 a) a)
    by (apply within_round; [exact Ha0|apply within_exact]).
  assert (Wb : within 1 (round64 b) b)
    by (apply within_round; [exact Hb0|apply within_exact]).
  assert (Wg : within 1 (fdiv sum 5) (inject_Z S / 5)).
  { unfold fdiv. apply within_round; [exact Havg0|].
    apply (within_eq 0 _ (sum / 5)); [rewrite Esum; reflexivity|].
    apply within_exact. }
  assert (W1 : within 3 (fmul (round64 a) (fdiv sum 5)) (a * (inject_Z S / 5))).
  { unfold fmul. apply within_round.
    - apply Qmult_le_0_compat; assumption.
    - apply (within_mul 1 1); assumption. }
  assert (W2 : within 3 (fmul (round64 b) (inject_Z x)) (b * inject_Z x)).
  { apply within_more; [apply Qmult_le_0_compat; assumption|].
    unfold fmul. apply within_round; [apply Qmult_le_0_compat; assumption|].
    apply (within_mul 1 0); [assumption|assumption|exact Wb|apply within_exact]. }
  assert (Hv0 : (0 <= exact)%Q).
  { unfold exact.
    pose proof (Qmult_le_0_compat _ _ Ha0 Havg0).
    pose proof (Qmult_le_0_compat _ _ Hb0 Hx0). lra. }
  assert (W : within 4 (fadd (fmul (round64 a) (fdiv sum 5))
                             (fmul (round64 b) (inject_Z x))) exact).
  { unfold fadd. apply within_round; [exact Hv0|].
    apply within_add; assumption. }
  pose proof (within_nonneg 4 _ _ Hv0 W) as Hw0.
  destruct (truncQ_floor _ Hw0) as [T1 T2].
  fold (blend64 a (fdiv sum 5) b x) in T1, T2.
  set (r := blend64 a (fdiv sum 5) b x) in *.
  set (w := fadd (fmul (round64 a) (fdiv sum 5)) (fmul (round64 b) (inject_Z x))) in *.
  destruct W as [L H]. destruct four_roundings as [CL CH].
  set (cl := ((1 - unitRoundoff) ^ Z.of_nat 4)%Q) in *.
  set (ch := ((1 + unitRoundoff) ^ Z.of_nat 4)%Q) in *.
  clearbody cl ch w.
  set (N := A * S + 5 * (100 - A) * x).
  assert (EN : (exact * 500 == inject_Z N)%Q).
  { unfold exact, N. rewrite Ea, Eb.
    rewrite !inject_Z_plus, !inject_Z_mult. change (inject_Z 5) with 5%Q.
    field. }
  assert (HN : 0 <= N <= 500 * 2147483647) by (unfold N; nia).
  assert (Hvmax : (exact <= 2147483647)%Q).
  { assert (inject_Z N <= inject_Z (500 * 2147483647))%Q
      by (rewrite <- Zle_Qle; lia).
    change (inject_Z (500 * 2147483647)) with (500 * 2147483647)%Q in H0.
    lra. }
  assert (L' : (exact * (1 - (1 # 1125899906842624)) <= w)%Q).
  { eapply Qle_trans; [|exact L].
    rewrite !(Qmult_comm exact). apply Qmult_le_compat_r; assumption. }
  assert (H' : (w <= exact * (1 + (1 # 1125899906842624)))%Q).
  { eapply Qle_trans; [exact H|].
    rewrite !(Qmult_comm exact). apply Qmult_le_compat_r; assumption. }
  clear L H CL CH.
  assert (U : (inject_Z (r * 500) < inject_Z (N + 1))%Q).
  { rewrite inject_Z_mult, inject_Z_plus.
    change (inject_Z 500) with 500%Q. change (inject_Z 1) with 1%Q. lra. }
  assert (D : (inject_Z (N + - 501) < inject_Z (r * 500))%Q).
  { rewrite inject_Z_mult, inject_Z_plus.
    change (inject_Z 500) with 500%Q. change (inject_Z (- 501)) with (- 501)%Q. lra. }
  rewrite <- Zlt_Qlt in U, D.
  assert (U' : (inject_Z (r * 500) <= inject_Z N)%Q) by (rewrite <- Zle_Qle; lia).
  assert (D' : (inject_Z (N + - 500) <= inject_Z (r * 500))%Q)
    by (rewrite <- Zle_Qle; lia).
  rewrite inject_Z_mult in U', D'. rewrite inject_Z_plus in D'.
  change (inject_Z 500) with 500%Q in U', D'.
  change (inject_Z (- 500)) with (- 500)%Q in D'.
  split; [exact Hv0|split; lra].
Qed.

(** The coordinate the source stores is the one of the blend over the
    rationals, or the pixel before it. *)
Lemma blend64_near_blend (A S x : Z) (a b sum : Q) :
  0 <= A <= 100 ->
  (a == inject_Z A / 100)%Q -> (b == inject_Z (100 - A) / 100)%Q ->
  0 <= S <= 5 * 2147483647 -> 0 <= x <= 2147483647 ->
  (sum == inject_Z S)%Q ->
  blend a (sum / 5) b x - 1 <= blend64 a (fdiv sum 5) b x <= blend a (sum / 5) b x.
Proof.
  intros HA Ea Eb HS Hx Esum.
  destruct (blend64_within_one_pixel A S x a b sum HA Ea Eb HS Hx Esum)
    as (H0 & L & U).
  set (r := blend64 a (fdiv sum 5) b x) in *.
  assert (E : blend a (sum / 5) b x
              = truncQ (a * (inject_Z S / 5) + b * inject_Z x)).
  { unfold blend. apply truncQ_comp. rewrite Esum. reflexivity. }
  rewrite E. clear E.
  set (exact := (a * (inject_Z S / 5) + b * inject_Z x)%Q) in *.
  destruct (truncQ_floor exact H0) as [T1 T2].
  set (t := truncQ exact) in *. clearbody t r exact.
  assert (U' : (inject_Z r < inject_Z (t + 1))%Q).
  { rewrite inject_Z_plus. change (inject_Z 1) with 1%Q. lra. }
  assert (L' : (inject_Z (t + - 1) <= inject_Z r)%Q).
  { rewrite inject_Z_plus. change (inject_Z (- 1)) with (- 1)%Q. lra. }
  rewrite <- Zlt_Qlt in U'. rewrite <- Zle_Qle in L'. lia.
Qed.

(** [improveUsingHistory] on doubles against [improveUsingHistory] over the
    rationals, for coordinates from 0 to [INT_MAX]: the two agree on the
    tier, and each stored coordinate is the one of the rational blend or the
    pixel before it. *)
Lemma improveUsingHistory64_near_exact
    (cvCircleFilled : Point -> Z -> Z -> Z -> bool)
    (getSearchSpace : Mat -> Point -> option Z -> SearchSpace)
    (h : Hand) (skinMask movementMap : Mat) :
  (forall k, (k < 5)%nat ->
     0 <= px (historySlot h k) <= 2147483647
     /\ 0 <= py (historySlot h k) <= 2147483647) ->
  0 <= px (position h) <= 2147483647 ->
  0 <= py (position h) <= 2147483647 ->
  let exact :=
    position (improveUsingHistory cvCircleFilled getSearchSpace h skinMask movementMap) in
  let stored :=
    position (improveUsingHistory64 cvCircleFilled getSearchSpace h skinMask movementMap) in
  px exact - 1 <= px stored <= px exact
  /\ py exact - 1 <= py stored <= py exact.
Proof.
  intros Hs Hx Hy exact stored. subst exact stored.
  unfold improveUsingHistory, improveUsingHistory64.
  rewrite historySum_five. cbv zeta.
  destruct (Hs 0%nat ltac:(lia)) as [X0 Y0].
  destruct (Hs 1%nat ltac:(lia)) as [X1 Y1].
  destruct (Hs 2%nat ltac:(lia)) as [X2 Y2].
  destruct (Hs 3%nat ltac:(lia)) as [X3 Y3].
  destruct (Hs 4%nat ltac:(lia)) as [X4 Y4].
  destruct (_ || _); [lia|].
  pose proof (getPointQuality_point cvCircleFilled getSearchSpace
                h (position h) movementMap 30) as Hp.
  destruct (getPointQuality cvCircleFilled getSearchSpace h (position h)
              movementMap 30) as [mc p].
  simpl in Hp. subst p. rewrite set_position_same.
  set (sx := (0 + inject_Z (px (historySlot h 0)) + inject_Z (px (historySlot h 1))
              + inject_Z (px (historySlot h 2)) + inject_Z (px (historySlot h 3))
              + inject_Z (px (historySlot h 4)))%Q).
  set (sy := (0 + inject_Z (py (historySlot h 0)) + inject_Z (py (historySlot h 1))
              + inject_Z (py (historySlot h 2)) + inject_Z (py (historySlot h 3))
              + inject_Z (py (historySlot h 4)))%Q).
  assert (Ex : (sx == inject_Z (px (historySlot h 0) + px (historySlot h 1)
                                + px (historySlot h 2) + px (historySlot h 3)
                                + px (historySlot h 4)))%Q)
    by (unfold sx; rewrite !inject_Z_plus; ring).
  assert (Ey : (sy == inject_Z (py (historySlot h 0) + py (historySlot h 1)
                                + py (historySlot h 2) + py (historySlot h 3)
                                + py (historySlot h 4)))%Q)
    by (unfold sy; rewrite !inject_Z_plus; ring).
  clearbody sx sy.
  destruct (Qltb mc (1 # 1000));
    [|destruct (Qltb mc (5 # 100)); [|destruct (Qltb mc (2 # 10)); [|lia]]];
    cbn [position set_position px py]; split.
  - eapply (blend64_near_blend 95);
      [lia|reflexivity|reflexivity| |exact Hx|exact Ex]; lia.
  - eapply (blend64_near_blend 95);
      [lia|reflexivity|reflexivity| |exact Hy|exact Ey]; lia.
  - eapply (blend64_near_blend 80);
      [lia|reflexivity|reflexivity| |exact Hx|exact Ex]; lia.
  - eapply (blend64_near_blend 80);
      [lia|reflexivity|reflexivity| |exact Hy|exact Ey]; lia.
  - eapply (blend64_near_blend 50);
      [lia|reflexivity|reflexivity| |exact Hx|exact Ex]; lia.
  - eapply (blend64_near_blend 50);
      [lia|reflexivity|reflexivity| |exact Hy|exact Ey]; lia.
Qed.

(** The bounds of [blend64_within_one_pixel] in whole numbers: for the
    stored coordinate [c], [500 * c] lies between
    [A * S + 5 * (100 - A) * x - 500] and [A * S + 5 * (100 - A) * x]. *)
Lemma blend64_tier (A S x : Z) (a b sum : Q) :
  0 <= A <= 100 ->
  (a == inject_Z A / 100)%Q -> (b == inject_Z (100 - A) / 100)%Q ->
  0 <= S <= 5 * 2147483647 -> 0 <= x <= 2147483647 ->
  (sum == inject_Z S)%Q ->
  A * S + 5 * (100 - A) * x - 500
  <= 500 * blend64 a (fdiv sum 5) b x
  <= A * S + 5 * (100 - A) * x.
Proof.
  intros HA Ea Eb HS Hx Esum.
  destruct (blend64_within_one_pixel A S x a b sum HA Ea Eb HS Hx Esum)
    as (_ & L & U).
  set (r := blend64 a (fdiv sum 5) b x) in *. clearbody r.
  set (N := A * S + 5 * (100 - A) * x).
  assert (EN : ((a * (inject_Z S / 5) + b * inject_Z x) * 500 == inject_Z N)%Q).
  { unfold N. rewrite Ea, Eb.
    rewrite !inject_Z_plus, !inject_Z_mult. change (inject_Z 5) with 5%Q.
    field. }
  assert (U' : (inject_Z (500 * r) <= inject_Z N)%Q).
  { rewrite inject_Z_mult. change (inject_Z 500) with 500%Q. lra. }
  assert (L' : (inject_Z (N + - 500) <= inject_Z (500 * r))%Q).
  { rewrite inject_Z_mult, inject_Z_plus.
    change (inject_Z 500) with 500%Q. change (inject_Z (- 500)) with (- 500)%Q.
    lra. }
  rewrite <- Zle_Qle in U', L'. lia.
Qed.

Lemma improveUsingHistory64_unfold
    (cvCircleFilled : Point -> Z -> Z -> Z -> bool)
    (getSearchSpace : Mat -> Point -> option Z -> SearchSpace)
    (h : Hand) (skinMask movementMap : Mat) :
  let s := historySlot h in
  let sumX := (0 + inject_Z (px (s 0%nat)) + inject_Z (px (s 1%nat))
               + inject_Z (px (s 2%nat)) + inject_Z (px (s 3%nat))
               + inject_Z (px (s 4%nat)))%Q in
  let sumY := (0 + inject_Z (py (s 0%nat)) + inject_Z (py (s 1%nat))
               + inject_Z (py (s 2%nat)) + inject_Z (py (s 3%nat))
               + inject_Z (py (s 4%nat)))%Q in
  let motion :=
    fst (getPointQuality cvCircleFilled getSearchSpace h (position h) movementMap 30) in
  let mix a b := mkPoint (blend64 a (fdiv sumX 5) b (px (position h)))
                         (blend64 a (fdiv sumY 5) b (py (position h))) in
  improveUsingHistory64 cvCircleFilled getSearchSpace h skinMask movementMap
  = if ((px (s 0%nat) =? 0) && (py (s 0%nat) =? 0))
       || ((px (s 1%nat) =? 0) && (py (s 1%nat) =? 0))
       || ((px (s 2%nat) =? 0) && (py (s 2%nat) =? 0))
       || ((px (s 3%nat) =? 0) && (py (s 3%nat) =? 0))
       || ((px (s 4%nat) =? 0) && (py (s 4%nat) =? 0))
    then h
    else if Qltb motion (1 # 1000) then set_position h (mix (95 # 100) (5 # 100))
    else if Qltb motion (5 # 100) then set_position h (mix (8 # 10) (2 # 10))
    else if Qltb motion (2 # 10) then set_position h (mix (5 # 10) (5 # 10))
    else h.
Proof.
  intros s sumX sumY motion mix.
  unfold improveUsingHistory64. rewrite historySum_five. fold s.
  destruct (_ || _); [reflexivity|].
  pose proof (getPointQuality_point cvCircleFilled getSearchSpace
                h (position h) movementMap 30) as Hp.
  subst motion.
  destruct (getPointQuality cvCircleFilled getSearchSpace h (position h)
              movementMap 30) as [mc p].
  simpl in Hp. subst p. simpl fst. rewrite set_position_same.
  subst mix sumX sumY. cbv beta. reflexivity.
Qed.

(** X20.  [improveUsingHistory] as the source runs it, on doubles, for
    coordinates from 0 to [INT_MAX].  The hand is left as it was when one of
    the last 5 history slots is the sentinel (0,0).  Otherwise only the
    position changes, by the tier of the motion coverage at the position
    (radius 30): with weights of 95 and 5 percent below 0.001, 80 and 20
    below 0.05, 50 and 50 below 0.2, each stored coordinate [c] is a whole
    number from [m - 1] to [m], where [m] is that weighted mean of the mean
    of the 5 slots and the current coordinate (in whole numbers, [500 * c]
    lies between [A * sum + 5 * (100 - A) * x - 500] and
    [A * sum + 5 * (100 - A) * x]); from 0.2 on the hand is left as it
    was. *)
Theorem improveUsingHistory64_tiers
    (cvCircleFilled : Point -> Z -> Z -> Z -> bool)
    (getSearchSpace : Mat -> Point -> option Z -> SearchSpace)
    (h : Hand) (skinMask movementMap : Mat) :
  (forall k, (k < 5)%nat ->
     0 <= px (historySlot h k) <= 2147483647
     /\ 0 <= py (historySlot h k) <= 2147483647) ->
  0 <= px (position h) <= 2147483647 ->
  0 <= py (position h) <= 2147483647 ->
  let s := historySlot h in
  let sumX := px (s 0%nat) + px (s 1%nat) + px (s 2%nat) + px (s 3%nat)
              + px (s 4%nat) in
  let sumY := py (s 0%nat) + py (s 1%nat) + py (s 2%nat) + py (s 3%nat)
              + py (s 4%nat) in
  let motion :=
    fst (getPointQuality cvCircleFilled getSearchSpace h (position h) movementMap 30) in
  let h' :=
    improveUsingHistory64 cvCircleFilled getSearchSpace h skinMask movementMap in
  let blended (A : Z) :=
    h' = set_position h (position h')
    /\ A * sumX + 5 * (100 - A) * px (position h) - 500
       <= 500 * px (position h')
       <= A * sumX + 5 * (100 - A) * px (position h)
    /\ A * sumY + 5 * (100 - A) * py (position h) - 500
       <= 500 * py (position h')
       <= A * sumY + 5 * (100 - A) * py (position h) in
  ((exists k, (k < 5)%nat /\ s k = origin) -> h' = h)
  /\ ((forall k, (k < 5)%nat -> s k <> origin) ->
      ((motion < 1 # 1000)%Q -> blended 95)
      /\ ((1 # 1000 <= motion)%Q -> (motion < 5 # 100)%Q -> blended 80)
      /\ ((5 # 100 <= motion)%Q -> (motion < 2 # 10)%Q -> blended 50)
      /\ ((2 # 10 <= motion)%Q -> h' = h)).
Proof.
  intros Hs Hx Hy s sumX sumY motion h' blended.
  pose proof (improveUsingHistory64_unfold cvCircleFilled getSearchSpace
                h skinMask movementMap) as Hu.
  cbv zeta in Hu. fold s in Hu. fold motion in Hu. fold h' in Hu.
  destruct (Hs 0%nat ltac:(lia)) as [X0 Y0].
  destruct (Hs 1%nat ltac:(lia)) as [X1 Y1].
  destruct (Hs 2%nat ltac:(lia)) as [X2 Y2].
  destruct (Hs 3%nat ltac:(lia)) as [X3 Y3].
  destruct (Hs 4%nat ltac:(lia)) as [X4 Y4].
  fold s in X0, X1, X2, X3, X4, Y0, Y1, Y2, Y3, Y4.
  set (qx := (0 + inject_Z (px (s 0%nat)) + inject_Z (px (s 1%nat))
              + inject_Z (px (s 2%nat)) + inject_Z (px (s 3%nat))
              + inject_Z (px (s 4%nat)))%Q) in *.
  set (qy := (0 + inject_Z (py (s 0%nat)) + inject_Z (py (s 1%nat))
              + inject_Z (py (s 2%nat)) + inject_Z (py (s 3%nat))
              + inject_Z (py (s 4%nat)))%Q) in *.
  assert (Ex : (qx == inject_Z sumX)%Q)
    by (unfold qx, sumX; rewrite !inject_Z_plus; ring).
  assert (Ey : (qy == inject_Z sumY)%Q)
    by (unfold qy, sumY; rewrite !inject_Z_plus; ring).
  assert (HSx : 0 <= sumX <= 5 * 2147483647) by (unfold sumX; lia).
  assert (HSy : 0 <= sumY <= 5 * 2147483647) by (unfold sumY; lia).
  assert (Htier : forall (A : Z) (a b : Q),
            0 <= A <= 100 ->
            (a == inject_Z A / 100)%Q -> (b == inject_Z (100 - A) / 100)%Q ->
            h' = set_position h
                   (mkPoint (blend64 a (fdiv qx 5) b (px (position h)))
                            (blend64 a (fdiv qy 5) b (py (position h)))) ->
            blended A).
  { intros A a b HA Ea Eb E. unfold blended. rewrite E.
    cbn [position set_position px py].
    split; [destruct h; reflexivity|]. split.
    - exact (blend64_tier A sumX _ a b qx HA Ea Eb HSx Hx Ex).
    - exact (blend64_tier A sumY _ a b qy HA Ea Eb HSy Hy Ey). }
  assert (Hfilled : (forall k, (k < 5)%nat -> s k <> origin) ->
     ((px (s 0%nat) =? 0) && (py (s 0%nat) =? 0))
     || ((px (s 1%nat) =? 0) && (py (s 1%nat) =? 0))
     || ((px (s 2%nat) =? 0) && (py (s 2%nat) =? 0))
     || ((px (s 3%nat) =? 0) && (py (s 3%nat) =? 0))
     || ((px (s 4%nat) =? 0) && (py (s 4%nat) =? 0)) = false).
  { intros Hall.
    assert (Hk : forall k, (k < 5)%nat ->
                   (px (s k) =? 0) && (py (s k) =? 0) = false).
    { intros k Hlt. destruct ((px (s k) =? 0) && (py (s k) =? 0)) eqn:E;
        [|reflexivity].
      apply is_origin_iff in E. exfalso. exact (Hall k Hlt E). }
    rewrite !Hk by lia. reflexivity. }
  split.
  - intros (k & Hlt & Hk).
    assert (E : (px (s k) =? 0) && (py (s k) =? 0) = true)
      by (apply is_origin_iff; exact Hk).
    rewrite Hu.
    destruct k as [|[|[|[|[|k]]]]]; try lia; rewrite E;
      rewrite ?orb_true_r; reflexivity.
  - intros Hall. rewrite (Hfilled Hall) in Hu.
    repeat apply conj.
    + intros H1. apply Qltb_lt in H1. rewrite H1 in Hu.
      apply (Htier 95 (95 # 100)%Q (5 # 100)%Q); [lia|reflexivity|reflexivity|exact Hu].
    + intros H1 H2. apply Qltb_ge in H1. apply Qltb_lt in H2.
      rewrite H1, H2 in Hu.
      apply (Htier 80 (8 # 10)%Q (2 # 10)%Q); [lia|reflexivity|reflexivity|exact Hu].
    + intros H1 H2.
      assert (H0 : Qltb motion (1 # 1000) = false) by (apply Qltb_ge; lra).
      apply Qltb_ge in H1. apply Qltb_lt in H2.
      rewrite H0, H1, H2 in Hu.
      apply (Htier 50 (5 # 10)%Q (5 # 10)%Q); [lia|reflexivity|reflexivity|exact Hu].
    + intros H1.
      assert (H0 : Qltb motion (1 # 1000) = false) by (apply Qltb_ge; lra).
      assert (H2 : Qltb motion (5 # 100) = false) by (apply Qltb_ge; lra).
      apply Qltb_ge in H1. rewrite H0, H1, H2 in Hu. exact Hu.
Qed.

Lemma improveUsingHistory64_tiers_witness :
  let h := set_position (restingHand (mkPoint 100 100) true) (mkPoint 110 110) in
  let still := uniformMask 200 200 0 in
  let h' := improveUsingHistory64 discFilled cropWindow h still still in
  (0 <= px (position h) <= 2147483647 /\ 0 <= py (position h) <= 2147483647)
  /\ (fst (getPointQuality discFilled cropWindow h (position h) still 30)
      < 1 # 1000)%Q
  /\ 49750 <= 500 * px (position h') <= 50250.
Proof.
  intros h still h'.
  assert (Hx : 0 <= px (position h) <= 2147483647) by (simpl; lia).
  assert (Hy : 0 <= py (position h) <= 2147483647) by (simpl; lia).
  assert (Hm : (fst (getPointQuality discFilled cropWindow h (position h) still 30)
                < 1 # 1000)%Q) by (vm_compute; reflexivity).
  assert (Hs : forall k, (k < 5)%nat ->
             0 <= px (historySlot h k) <= 2147483647
             /\ 0 <= py (historySlot h k) <= 2147483647).
  { intros k Hk. destruct k as [|[|[|[|[|k]]]]]; try lia; simpl; lia. }
  assert (Hne : forall k, (k < 5)%nat -> historySlot h k <> origin).
  { intros k Hk. destruct k as [|[|[|[|[|k]]]]]; try lia; discriminate. }
  split; [split; [exact Hx|exact Hy]|]. split; [exact Hm|].
  destruct (improveUsingHistory64_tiers discFilled cropWindow h still still
              Hs Hx Hy) as [_ H].
  destruct (H Hne) as [H95 _].
  destruct (H95 Hm) as (_ & Hb & _).
  exact Hb.
Defined.

(** [round64] on known values: 0.95 is 0x1.e666666666666p-1, 0.05 is
    0x1.999999999999ap-5, one third is 0x1.5555555555555p-2, and whole
    numbers and 0.5 are kept. *)
Lemma round64_examples :
  (round64 (95 # 100) == 8556839292003942 # 9007199254740992)%Q
  /\ (round64 (5 # 100) == 7205759403792794 # 144115188075855872)%Q
  /\ (round64 (1 # 3) == 6004799503160661 # 18014398509481984)%Q
  /\ (round64 (5 # 10) == 1 # 2)%Q
  /\ (round64 101 == 101)%Q
  /\ (round64 (-1 # 3) == -6004799503160661 # 18014398509481984)%Q.
Proof. vm_compute. repeat split. Qed.

(** The double sum 0.95 * 101 + 0.05 * 101 is 101 - 2^-46, just below 101,
    while 0.95 * 100 + 0.05 * 100 is 100; of the coordinates 1 .. 1280 of a
    hand at rest, 340 lose a pixel in the 95/5 blend. *)
Lemma blend64_at_rest :
  (fadd (fmul (round64 (95 # 100)) 101) (fmul (round64 (5 # 100)) 101)
   == 101 - (1 # 70368744177664))%Q
  /\ blend64 (95 # 100) (fdiv 505 5) (5 # 100) 101 = 100
  /\ blend64 (95 # 100) (fdiv 500 5) (5 # 100) 100 = 100
  /\ length
       (filter
          (fun z => negb (blend64 (95 # 100) (fdiv (inject_Z (5 * z)) 5)
                            (5 # 100) z =? z))
          (map Z.of_nat (seq 1 1280)))
     = 340%nat.
Proof. vm_compute. repeat split. Qed.

(** C6.  A hand at rest at (101,102): its last 5 history slots are (101,102)
    and the motion coverage is 0, so the 95/5 blend of the mean (101,102)
    and the position (101,102) is (101,102).  [improveUsingHistory] stores
    (100,101): in doubles 0.95 * 101 + 0.05 * 101 falls just below 101 and
    the conversion to [int] drops the fraction.  At (100,100), the scenario
    of the claim, the position stays (100,100). *)
Theorem improveUsingHistory_drifts_resting_hand :
  let h := restingHand (mkPoint 101 102) true in
  let still := uniformMask 200 200 0 in
  map (historySlot h) [0; 1; 2; 3; 4]%nat = repeat (mkPoint 101 102) 5
  /\ position h = mkPoint 101 102
  /\ (fst (getPointQuality discFilled cropWindow h (position h) still 30) == 0)%Q
  /\ ((95 # 100) * 101 + (5 # 100) * 101 == 101)%Q
  /\ ((95 # 100) * 102 + (5 # 100) * 102 == 102)%Q
  /\ position (improveUsingHistory64 discFilled cropWindow h still still)
     = mkPoint 100 101
  /\ position (improveUsingHistory64 discFilled cropWindow
                 (restingHand (mkPoint 100 100) true) still still)
     = mkPoint 100 100.
Proof.
  intros h still. vm_compute. repeat split.
Qed.
